(** * Converter: the multi-file conversion component (VideoConverter)

    A shallow embedding of the stateful part of the [VideoConverter] React
    component: the per-file job records, the queueing policy of [onDrop],
    the conversion routine [convertVideo] with its engine calls, the
    download naming of [downloadVideo] and [resetConverter].

    The component is asynchronous but single-threaded: an [async] function
    is embedded as a state transformer with a completion (returned value or
    thrown error).  A [useCallback] closure is embedded as a function that
    takes the values it captured at render time as explicit arguments, so a
    value read through a closure and a value read from the live React state
    are different things in the model, as they are in the code.

    Scope of the model.  Every state update is applied at once and recorded
    in [history], so the states a batch goes through can be inspected.  The
    engine is a black box: which of its calls reject, and how long they
    take, are parameters.  The component is given twice.  In the first
    form user actions are handled one after another, a drop running to its
    end before the next action.  In the second form ([Interleaved]) the
    same functions are suspended at each awaited engine call and the clicks
    made meanwhile (Clear All Files, a radio button, a Download button) are
    handled before the call settles; without such clicks the two forms
    agree.  A second drop while one is being processed needs the dropzone
    enabled, that is a Clear All Files click during that drop; two drops
    running at the same time are not modelled.  The progress events of the
    engine are left out: they rewrite the message and the progress bar of
    [conversionState] while [exec] runs, set the phase converting, and never
    touch the job list. *)

From Stdlib Require Import String Ascii List Arith ZArith Lia Bool.
From Stdlib Require Import DecimalNat DecimalString Permutation.
Import ListNotations.
Open Scope string_scope.

(** ** JavaScript library functions used by the component *)

Module JS.

(** Template-literal rendering of a non-negative integer ([Date.now()]). *)
Definition toString (n : nat) : string :=
  NilEmpty.string_of_uint (Nat.to_uint n).

(** [arr.slice(0, end)]: a negative [end] counts from the end of the array. *)
Definition slice0 {A : Type} (arr : list A) (e : Z) : list A :=
  if (e <? 0)%Z
  then firstn (Z.to_nat (Z.of_nat (length arr) + e)) arr
  else firstn (Z.to_nat e) arr.

(** [arr.splice(start, deleteCount)] for [0 <= start]: the array that is
    left in place (the removed elements, which [splice] returns, are not
    used by the component). *)
Definition splice {A : Type} (start deleteCount : nat) (arr : list A) : list A :=
  (firstn start arr ++ skipn (start + deleteCount) arr)%list.

Definition is_dot (c : ascii) : bool := Ascii.eqb c ".".

Fixpoint has_dot (s : string) : bool :=
  match s with
  | EmptyString => false
  | String c r => is_dot c || has_dot r
  end.

(** [s.split('.').pop()]: the text after the last dot, the whole string
    when it has no dot. *)
Fixpoint split_pop (s : string) : string :=
  match s with
  | EmptyString => EmptyString
  | String c r =>
      if has_dot s then (if is_dot c && negb (has_dot r) then r else split_pop r)
      else s
  end.

(** [s.replace(/\.[^.]+$/, rep)] for a replacement text without [$]: the
    leftmost position where a dot is followed by one or more non-dot
    characters up to the end of the string. *)
Fixpoint replace_ext (s rep : string) : string :=
  match s with
  | EmptyString => EmptyString
  | String c r =>
      if is_dot c && negb (has_dot r) && negb (String.eqb r "")
      then rep
      else String c (replace_ext r rep)
  end.

Definition is_dollar (c : ascii) : bool := Ascii.eqb c "$".

Fixpoint has_dollar (s : string) : bool :=
  match s with
  | EmptyString => false
  | String c r => is_dollar c || has_dollar r
  end.

(** The replacement text of [String.prototype.replace] with its patterns
    expanded, for a regular expression without capture groups: [$$] is a
    dollar sign, [$&] the matched text, [$`] the text before the match and
    [$'] the text after it; any other [$] stands for itself. *)
Fixpoint expand (rep matched before after : string) : string :=
  match rep with
  | EmptyString => EmptyString
  | String c rest =>
      if is_dollar c then
        match rest with
        | EmptyString => String c EmptyString
        | String d rest' =>
            if Ascii.eqb d "$" then String "$" (expand rest' matched before after)
            else if Ascii.eqb d "&" then matched ++ expand rest' matched before after
            else if Ascii.eqb d "`" then before ++ expand rest' matched before after
            else if Ascii.eqb d "'" then after ++ expand rest' matched before after
            else String c (expand rest matched before after)
        end
      else String c (expand rest matched before after)
  end.

(** [s.replace(/\.[^.]+$/, rep)] for every replacement text: the match is
    found as in [replace_ext] and replaced by the expanded replacement;
    [before] is the text in front of [s]. *)
Fixpoint replace_from (before s rep : string) : string :=
  match s with
  | EmptyString => EmptyString
  | String c r =>
      if is_dot c && negb (has_dot r) && negb (String.eqb r "")
      then expand rep s before EmptyString
      else String c (replace_from (before ++ String c EmptyString) r rep)
  end.

Definition replace (s rep : string) : string := replace_from EmptyString s rep.

(** Truthiness of an optional string ([undefined] and [''] are falsy). *)
Definition truthy (v : option string) : bool :=
  match v with
  | Some s => negb (String.eqb s "")
  | None => false
  end.

End JS.

(** ** Data model (the interfaces of the component) *)

Module Phase.
Inductive t := idle | loading | converting | completed | error.
Definition eqb (a b : t) : bool :=
  match a, b with
  | idle, idle | loading, loading | converting, converting
  | completed, completed | error, error => true
  | _, _ => false
  end.
End Phase.

Module Status.
Inductive t := pending | converting | completed | error.
Definition eqb (a b : t) : bool :=
  match a, b with
  | pending, pending | converting, converting
  | completed, completed | error, error => true
  | _, _ => false
  end.
End Status.

(** A browser [File] object.  The component compares files with [===], that
    is by object identity: [ref] is the identity of the object. *)
Record File := { ref : nat; name : string }.

Definition same_file (a b : File) : bool := Nat.eqb (ref a) (ref b).

Module ConversionProgress.
Record t := { phase : Phase.t; message : string; progress : option nat }.
End ConversionProgress.

Module FileConversion.
Record t := {
  file : File;
  status : Status.t;
  progress : nat;
  downloadUrl : option string;
  error : option string
}.
End FileConversion.

Module OutputFormat.
Record t := {
  label : string;
  value : string;
  description : string;
  recommended : bool
}.
End OutputFormat.

Definition OUTPUT_FORMATS : list OutputFormat.t :=
  [ OutputFormat.Build_t "MP4" "mp4" "Most compatible format for web and devices" true;
    OutputFormat.Build_t "WebM" "webm" "Optimized for web streaming" false;
    OutputFormat.Build_t "MKV" "mkv" "High quality container with subtitle support" false;
    OutputFormat.Build_t "MOV" "mov" "Apple QuickTime format" false;
    OutputFormat.Build_t "AVI" "avi" "Classic Windows video format" false;
    OutputFormat.Build_t "M4V" "m4v" "iTunes compatible format" false;
    OutputFormat.Build_t "FLV" "flv" "Flash video format" false;
    OutputFormat.Build_t "GIF" "gif" "Animated image format" false ].

(** ** The engine boundary and the rest of the environment *)

(** Calls that cross the boundary to the engine ([FFmpeg] methods and
    [fetchFile]); every one of them is awaited and may reject. *)
Inductive EngineCall :=
| Load
| FetchFile (f : File)
| WriteFile (path : string)
| Exec (args : list string)
| ReadFile (path : string)
| DeleteFile (path : string).

(** What a render shows: the job list and the aggregate phase. *)
Definition Snapshot : Type := list FileConversion.t * Phase.t.

(** The React state of the component ([conversionState], [uploadedFiles],
    [outputFormat], [ffmpegRef]) followed by the environment it acts on. *)
Record Sys := {
  conversionState : ConversionProgress.t;
  uploadedFiles : list FileConversion.t;
  outputFormat : string;
  ffmpegRef : option nat;          (* the FFmpeg instance held, if any *)
  instances : nat;                 (* FFmpeg instances constructed so far *)
  now : nat;                       (* Date.now() *)
  fs : list string;                (* entries of the engine's virtual file system *)
  engineCalls : list EngineCall;   (* calls issued so far, newest first *)
  objectUrls : list (string * string); (* URL.createObjectURL: (url, MIME type), newest first *)
  revoked : list string;           (* URL.revokeObjectURL calls, oldest first *)
  console : list string;           (* console.error: the raw error texts, newest first *)
  downloads : list (string * string); (* link clicks: (href, download name), newest first *)
  nextFile : nat;                  (* identity of the next File object the browser creates *)
  history : list Snapshot          (* state after every state update, newest first *)
}.

Definition initial : Sys := {|
  conversionState :=
    ConversionProgress.Build_t Phase.idle "Ready for fast video conversion" None;
  uploadedFiles := [];
  outputFormat := "mp4";
  ffmpegRef := None;
  instances := 0;
  now := 0;
  fs := [];
  engineCalls := [];
  objectUrls := [];
  revoked := [];
  console := [];
  downloads := [];
  nextFile := 0;
  history := []
|}.

Definition phaseOf (s : Sys) : Phase.t :=
  ConversionProgress.phase (conversionState s).

(** *** State updates *)

Definition setUploadedFiles
    (upd : list FileConversion.t -> list FileConversion.t) (s : Sys) : Sys :=
  let l := upd (uploadedFiles s) in
  {| conversionState := conversionState s; uploadedFiles := l;
     outputFormat := outputFormat s; ffmpegRef := ffmpegRef s;
     instances := instances s; now := now s; fs := fs s;
     engineCalls := engineCalls s; objectUrls := objectUrls s;
     revoked := revoked s; console := console s; downloads := downloads s;
     nextFile := nextFile s;
     history := (l, phaseOf s) :: history s |}.

Definition setConversionState (c : ConversionProgress.t) (s : Sys) : Sys :=
  {| conversionState := c; uploadedFiles := uploadedFiles s;
     outputFormat := outputFormat s; ffmpegRef := ffmpegRef s;
     instances := instances s; now := now s; fs := fs s;
     engineCalls := engineCalls s; objectUrls := objectUrls s;
     revoked := revoked s; console := console s; downloads := downloads s;
     nextFile := nextFile s;
     history := (uploadedFiles s, ConversionProgress.phase c) :: history s |}.

Definition setOutputFormat (v : string) (s : Sys) : Sys :=
  {| conversionState := conversionState s; uploadedFiles := uploadedFiles s;
     outputFormat := v; ffmpegRef := ffmpegRef s;
     instances := instances s; now := now s; fs := fs s;
     engineCalls := engineCalls s; objectUrls := objectUrls s;
     revoked := revoked s; console := console s; downloads := downloads s;
     nextFile := nextFile s; history := history s |}.

Definition set_ffmpegRef (r : option nat) (s : Sys) : Sys :=
  {| conversionState := conversionState s; uploadedFiles := uploadedFiles s;
     outputFormat := outputFormat s; ffmpegRef := r;
     instances := instances s; now := now s; fs := fs s;
     engineCalls := engineCalls s; objectUrls := objectUrls s;
     revoked := revoked s; console := console s; downloads := downloads s;
     nextFile := nextFile s; history := history s |}.

Definition set_instances (n : nat) (s : Sys) : Sys :=
  {| conversionState := conversionState s; uploadedFiles := uploadedFiles s;
     outputFormat := outputFormat s; ffmpegRef := ffmpegRef s;
     instances := n; now := now s; fs := fs s;
     engineCalls := engineCalls s; objectUrls := objectUrls s;
     revoked := revoked s; console := console s; downloads := downloads s;
     nextFile := nextFile s; history := history s |}.

Definition set_fs (l : list string) (s : Sys) : Sys :=
  {| conversionState := conversionState s; uploadedFiles := uploadedFiles s;
     outputFormat := outputFormat s; ffmpegRef := ffmpegRef s;
     instances := instances s; now := now s; fs := l;
     engineCalls := engineCalls s; objectUrls := objectUrls s;
     revoked := revoked s; console := console s; downloads := downloads s;
     nextFile := nextFile s; history := history s |}.

(** An engine call is logged and takes some time. *)
Definition issue (c : EngineCall) (elapsed : nat) (s : Sys) : Sys :=
  {| conversionState := conversionState s; uploadedFiles := uploadedFiles s;
     outputFormat := outputFormat s; ffmpegRef := ffmpegRef s;
     instances := instances s; now := now s + elapsed; fs := fs s;
     engineCalls := c :: engineCalls s; objectUrls := objectUrls s;
     revoked := revoked s; console := console s; downloads := downloads s;
     nextFile := nextFile s; history := history s |}.

Definition set_objectUrls (l : list (string * string)) (s : Sys) : Sys :=
  {| conversionState := conversionState s; uploadedFiles := uploadedFiles s;
     outputFormat := outputFormat s; ffmpegRef := ffmpegRef s;
     instances := instances s; now := now s; fs := fs s;
     engineCalls := engineCalls s; objectUrls := l;
     revoked := revoked s; console := console s; downloads := downloads s;
     nextFile := nextFile s; history := history s |}.

Definition set_revoked (l : list string) (s : Sys) : Sys :=
  {| conversionState := conversionState s; uploadedFiles := uploadedFiles s;
     outputFormat := outputFormat s; ffmpegRef := ffmpegRef s;
     instances := instances s; now := now s; fs := fs s;
     engineCalls := engineCalls s; objectUrls := objectUrls s;
     revoked := l; console := console s; downloads := downloads s;
     nextFile := nextFile s; history := history s |}.

Definition set_console (l : list string) (s : Sys) : Sys :=
  {| conversionState := conversionState s; uploadedFiles := uploadedFiles s;
     outputFormat := outputFormat s; ffmpegRef := ffmpegRef s;
     instances := instances s; now := now s; fs := fs s;
     engineCalls := engineCalls s; objectUrls := objectUrls s;
     revoked := revoked s; console := l; downloads := downloads s;
     nextFile := nextFile s; history := history s |}.

Definition set_downloads (l : list (string * string)) (s : Sys) : Sys :=
  {| conversionState := conversionState s; uploadedFiles := uploadedFiles s;
     outputFormat := outputFormat s; ffmpegRef := ffmpegRef s;
     instances := instances s; now := now s; fs := fs s;
     engineCalls := engineCalls s; objectUrls := objectUrls s;
     revoked := revoked s; console := console s; downloads := l;
     nextFile := nextFile s; history := history s |}.

Definition set_nextFile (n : nat) (s : Sys) : Sys :=
  {| conversionState := conversionState s; uploadedFiles := uploadedFiles s;
     outputFormat := outputFormat s; ffmpegRef := ffmpegRef s;
     instances := instances s; now := now s; fs := fs s;
     engineCalls := engineCalls s; objectUrls := objectUrls s;
     revoked := revoked s; console := console s; downloads := downloads s;
     nextFile := n; history := history s |}.

(** ** Asynchronous functions: state and exceptions *)

Inductive Completion (A : Type) :=
| Return (a : A)
| Throw (e : string).
Arguments Return {A} a.
Arguments Throw {A} e.

Definition Async (A : Type) : Type := Sys -> Completion A * Sys.

Definition ret {A : Type} (a : A) : Async A := fun s => (Return a, s).

Definition throw {A : Type} (e : string) : Async A := fun s => (Throw e, s).

Definition bind {A B : Type} (m : Async A) (k : A -> Async B) : Async B :=
  fun s =>
    match m s with
    | (Return a, s1) => k a s1
    | (Throw e, s1) => (Throw e, s1)
    end.

(** [try { m } catch (error) { h error }] *)
Definition try_catch {A : Type} (m : Async A) (h : string -> Async A) : Async A :=
  fun s =>
    match m s with
    | (Return a, s1) => (Return a, s1)
    | (Throw e, s1) => h e s1
    end.

(** A synchronous state update seen as a step of an asynchronous function. *)
Definition act (f : Sys -> Sys) : Async unit := fun s => (Return tt, f s).

Definition read {A : Type} (f : Sys -> A) : Async A := fun s => (Return (f s), s).

(** [for (const x of xs) { await body(x); }] *)
Fixpoint for_of {A : Type} (xs : list A) (body : A -> Async unit) : Async unit :=
  match xs with
  | [] => ret tt
  | x :: rest => bind (body x) (fun _ => for_of rest body)
  end.

Declare Scope async_scope.
Delimit Scope async_scope with async.
Notation "x <- m ;; k" := (bind m (fun x => k))
  (at level 61, m at next level, right associativity) : async_scope.
Notation "m ;; k" := (bind m (fun _ => k))
  (at level 61, right associativity) : async_scope.
Open Scope async_scope.

(** ** The component *)

Section Component.

(** The behaviour of the engine is not part of the component.  It is a
    parameter here: [faults k] tells whether the [k]-th engine call
    (counting from 0) rejects, and with which raw error text;
    [latency k] is the time that call takes. *)
Variable faults : nat -> option string.
Variable latency : nat -> nat.

Definition mem (path : string) (l : list string) : bool :=
  existsb (String.eqb path) l.

Definition unlink (path : string) (l : list string) : list string :=
  filter (fun p => negb (String.eqb path p)) l.

(** One awaited call to the engine: it rejects when the fault schedule
    says so or when the call is impossible in the current file system,
    and otherwise has its effect. *)
Definition engine (c : EngineCall) (possible : Sys -> bool)
    (effect : Sys -> Sys) : Async unit :=
  fun s =>
    let k := length (engineCalls s) in
    let s1 := issue c (latency k) s in
    match faults k with
    | Some e => (Throw e, s1)
    | None =>
        if possible s1 then (Return tt, effect s1)
        else (Throw "ErrnoError: FS error", s1)
    end.

Definition FFmpeg_load : Async unit :=
  engine Load (fun _ => true) (fun s => s).

Definition fetchFile (f : File) : Async unit :=
  engine (FetchFile f) (fun _ => true) (fun s => s).

Definition FFmpeg_writeFile (path : string) : Async unit :=
  engine (WriteFile path) (fun _ => true)
    (fun s => set_fs (path :: unlink path (fs s)) s).

(** A successful run of the engine writes its output entry, the last
    argument of the command. *)
Definition FFmpeg_exec (args : list string) : Async unit :=
  engine (Exec args) (fun _ => true)
    (fun s => set_fs (last args "" :: unlink (last args "") (fs s)) s).

Definition FFmpeg_readFile (path : string) : Async unit :=
  engine (ReadFile path) (fun s => mem path (fs s)) (fun s => s).

Definition FFmpeg_deleteFile (path : string) : Async unit :=
  engine (DeleteFile path) (fun s => mem path (fs s))
    (fun s => set_fs (unlink path (fs s)) s).

Definition new_FFmpeg : Async nat :=
  fun s => (Return (instances s), set_instances (S (instances s)) s).

Definition Date_now : Async nat := read now.

Definition URL_createObjectURL (mimeType : string) : Async string :=
  fun s =>
    let url := "blob:" ++ JS.toString (length (objectUrls s)) in
    (Return url, set_objectUrls ((url, mimeType) :: objectUrls s) s).

Definition URL_revokeObjectURL (url : string) (s : Sys) : Sys :=
  set_revoked (revoked s ++ [url])%list s.

Definition console_error (text : string) : Async unit :=
  act (fun s => set_console (text :: console s) s).

Definition initializeFFmpeg : Async nat :=
  cur <- read ffmpegRef ;;
  match cur with
  | Some ffmpeg => ret ffmpeg
  | None =>
      ffmpeg <- new_FFmpeg ;;
      act (setConversionState
             (ConversionProgress.Build_t Phase.loading "Loading FFmpeg..." None)) ;;
      try_catch
        (FFmpeg_load ;;
         act (set_ffmpegRef (Some ffmpeg)) ;;
         ret ffmpeg)
        (fun error =>
           console_error error ;;
           throw "Failed to initialize video converter")
  end.

(** The three updates of one job record, [{ ...fc, ... }]. *)
Definition markConverting (fc : FileConversion.t) : FileConversion.t :=
  FileConversion.Build_t (FileConversion.file fc) Status.converting 0
    (FileConversion.downloadUrl fc) (FileConversion.error fc).

Definition markCompleted (outputUrl : string) (fc : FileConversion.t)
    : FileConversion.t :=
  FileConversion.Build_t (FileConversion.file fc) Status.completed 100
    (Some outputUrl) (FileConversion.error fc).

Definition markError (fc : FileConversion.t) : FileConversion.t :=
  FileConversion.Build_t (FileConversion.file fc) Status.error
    (FileConversion.progress fc) (FileConversion.downloadUrl fc)
    (Some "Conversion failed").

(** [prev.map(fc => fc.file === fileConversion.file ? upd(fc) : fc)] *)
Definition mapJob (target : FileConversion.t)
    (upd : FileConversion.t -> FileConversion.t)
    (prev : list FileConversion.t) : list FileConversion.t :=
  map (fun fc =>
         if same_file (FileConversion.file fc) (FileConversion.file target)
         then upd fc else fc) prev.

(** The command line of one conversion. *)
Definition buildArgs (outputFormat inputName outputName : string) : list string :=
  let args :=
    [ "-i"; inputName;
      "-c"; if String.eqb outputFormat "gif" then "gif" else "copy";
      "-movflags"; "+faststart";
      outputName ] in
  if String.eqb outputFormat "gif" then JS.splice 3 2 args else args.

Definition inputNameAt (t : nat) (fileConversion : FileConversion.t) : string :=
  "input_" ++ JS.toString t ++ "." ++
  JS.split_pop (name (FileConversion.file fileConversion)).

Definition outputNameAt (t : nat) (outputFormat : string) : string :=
  "output_" ++ JS.toString t ++ "." ++ outputFormat.

Definition mimeTypeOf (outputFormat : string) : string :=
  if String.eqb outputFormat "gif" then "image/gif" else "video/" ++ outputFormat.

Definition terminalStatus (st : Status.t) : bool :=
  Status.eqb st Status.completed || Status.eqb st Status.error.

(** The body of the [try] block of [convertVideo].  [outputFormat] and
    [uploadedFiles] are the values the closure captured. *)
Definition convertVideo_try (outputFormat : string)
    (uploadedFiles : list FileConversion.t)
    (fileConversion : FileConversion.t) : Async unit :=
  ffmpeg <- initializeFFmpeg ;;
  act (setUploadedFiles (mapJob fileConversion markConverting)) ;;
  act (setConversionState
         (ConversionProgress.Build_t Phase.converting
            ("Converting " ++ name (FileConversion.file fileConversion)
               ++ " to ." ++ outputFormat ++ "...")
            (Some 0))) ;;
  t1 <- Date_now ;;
  let inputName := inputNameAt t1 fileConversion in
  fetchFile (FileConversion.file fileConversion) ;;
  FFmpeg_writeFile inputName ;;
  t2 <- Date_now ;;
  let outputName := outputNameAt t2 outputFormat in
  FFmpeg_exec (buildArgs outputFormat inputName outputName) ;;
  FFmpeg_readFile outputName ;;
  outputUrl <- URL_createObjectURL (mimeTypeOf outputFormat) ;;
  act (setUploadedFiles (mapJob fileConversion (markCompleted outputUrl))) ;;
  FFmpeg_deleteFile inputName ;;
  FFmpeg_deleteFile outputName ;;
  let allCompleted :=
    forallb (fun fc =>
               same_file (FileConversion.file fc) (FileConversion.file fileConversion)
               || Status.eqb (FileConversion.status fc) Status.completed
               || Status.eqb (FileConversion.status fc) Status.error)
            uploadedFiles in
  if allCompleted
  then act (setConversionState
              (ConversionProgress.Build_t Phase.completed
                 "All conversions completed!" (Some 100)))
  else ret tt.

Definition convertVideo (outputFormat : string)
    (uploadedFiles : list FileConversion.t)
    (fileConversion : FileConversion.t) : Async unit :=
  try_catch
    (convertVideo_try outputFormat uploadedFiles fileConversion)
    (fun error =>
       console_error error ;;
       act (setUploadedFiles (mapJob fileConversion markError))).

Definition pendingJob (f : File) : FileConversion.t :=
  FileConversion.Build_t f Status.pending 0 None None.

(** [onDrop]: the closure captured [convertVideo] (hence [outputFormat]
    and [uploadedFiles]) and [uploadedFiles.length] of one render. *)
Definition onDrop (outputFormat : string)
    (uploadedFiles : list FileConversion.t)
    (acceptedFiles : list File) : Async unit :=
  let currentCount := length uploadedFiles in
  let availableSlots := (5 - Z.of_nat currentCount)%Z in
  let filesToProcess := JS.slice0 acceptedFiles availableSlots in
  let newFiles := map pendingJob filesToProcess in
  act (setUploadedFiles (fun prev => prev ++ newFiles)%list) ;;
  for_of newFiles (convertVideo outputFormat uploadedFiles).

(** [downloadVideo] is created anew by every render: [outputFormat] is the
    format selected when the button is clicked. *)
Definition downloadVideo (outputFormat : string)
    (fileConversion : FileConversion.t) (s : Sys) : Sys :=
  match FileConversion.downloadUrl fileConversion with
  | Some url =>
      if JS.truthy (Some url) then
        let ext := outputFormat in
        set_downloads
          ((url, JS.replace_ext (name (FileConversion.file fileConversion))
                   ("." ++ ext)) :: downloads s) s
      else s
  | None => s
  end.

Definition revokeAll (l : list FileConversion.t) (s : Sys) : Sys :=
  fold_left
    (fun acc fc =>
       match FileConversion.downloadUrl fc with
       | Some url => if JS.truthy (Some url) then URL_revokeObjectURL url acc else acc
       | None => acc
       end) l s.

Definition resetConverter (s : Sys) : Sys :=
  let s1 := revokeAll (uploadedFiles s) s in
  let s2 := setUploadedFiles (fun _ => []) s1 in
  setConversionState
    (ConversionProgress.Build_t Phase.idle "Ready for fast video conversion" None) s2.

(** *** The user interface: which action reaches which handler *)

Definition busy (s : Sys) : bool :=
  Phase.eqb (phaseOf s) Phase.loading || Phase.eqb (phaseOf s) Phase.converting.

(** The browser creates a new [File] object for every dropped file. *)
Fixpoint browserFiles (next : nat) (names : list string) : list File :=
  match names with
  | [] => []
  | n :: rest => Build_File next n :: browserFiles (S next) rest
  end.

(** A drop handled by the closure of the current render. *)
Definition dropFiles (names : list string) (s : Sys) : Sys :=
  let acceptedFiles := browserFiles (nextFile s) names in
  snd (onDrop (outputFormat s) (uploadedFiles s) acceptedFiles
         (set_nextFile (nextFile s + length names) s)).

Inductive Action :=
| Drop (names : list string)   (* files accepted by the dropzone *)
| SelectFormat (i : nat)       (* the i-th format radio button *)
| ClickDownload (i : nat)      (* the Download button of the i-th row *)
| ClickReset.                  (* the Clear All Files button *)

Definition step (s : Sys) (a : Action) : Sys :=
  match a with
  | Drop names =>
      (* the dropzone is rendered while fewer than 5 jobs are listed and
         is disabled while loading or converting *)
      if Nat.ltb (length (uploadedFiles s)) 5 && negb (busy s)
      then dropFiles names s else s
  | SelectFormat i =>
      match nth_error OUTPUT_FORMATS i with
      | Some fmt => if busy s then s else setOutputFormat (OutputFormat.value fmt) s
      | None => s
      end
  | ClickDownload i =>
      match nth_error (uploadedFiles s) i with
      | Some fc =>
          if Status.eqb (FileConversion.status fc) Status.completed
          then downloadVideo (outputFormat s) fc s else s
      | None => s
      end
  | ClickReset =>
      match uploadedFiles s with
      | [] => s
      | _ :: _ => resetConverter s
      end
  end.

Definition run (acts : list Action) : Sys := fold_left step acts initial.

(** The snapshots added to the history between an earlier state and a
    later one, newest first. *)
Definition since (before after : Sys) : list Snapshot :=
  firstn (length (history after) - length (history before)) (history after).

(** The engine calls issued between an earlier state and a later one. *)
Definition callsSince (before after : Sys) : list EngineCall :=
  firstn (length (engineCalls after) - length (engineCalls before))
         (engineCalls after).

End Component.

(** The icon beside the status message ([getStatusIcon]). *)
Inductive Icon := Loader2 | CheckCircle | AlertCircle | FileVideo.

Definition getStatusIcon (phase : Phase.t) : Icon :=
  match phase with
  | Phase.loading | Phase.converting => Loader2
  | Phase.completed => CheckCircle
  | Phase.error => AlertCircle
  | _ => FileVideo
  end.

(** ** The component with clicks between its awaits *)

(** What the user can click while an engine call of a conversion is
    pending: the Clear All Files button, which is never disabled, a format
    radio button and a Download button.  Each click is handled at once by
    the handler of the current render. *)
Inductive Click :=
| ClearAllFiles
| PickFormat (i : nat)
| PressDownload (i : nat).

Module Interleaved.

Section Clicks.

Variable faults : nat -> option string.
Variable latency : nat -> nat.

(** [clicks k]: the clicks made while the [k]-th engine call is pending. *)
Variable clicks : nat -> list Click.

Definition click (s : Sys) (c : Click) : Sys :=
  match c with
  | ClearAllFiles => step faults latency s ClickReset
  | PickFormat i => step faults latency s (SelectFormat i)
  | PressDownload i => step faults latency s (ClickDownload i)
  end.

(** One awaited call to the engine: the function is suspended at the
    [await], the clicks made meanwhile are handled, then the call rejects
    or has its effect and the function goes on. *)
Definition engine (c : EngineCall) (possible : Sys -> bool)
    (effect : Sys -> Sys) : Async unit :=
  fun s =>
    let k := length (engineCalls s) in
    let s1 := fold_left click (clicks k) (issue c (latency k) s) in
    match faults k with
    | Some e => (Throw e, s1)
    | None =>
        if possible s1 then (Return tt, effect s1)
        else (Throw "ErrnoError: FS error", s1)
    end.

Definition FFmpeg_load : Async unit :=
  engine Load (fun _ => true) (fun s => s).

Definition fetchFile (f : File) : Async unit :=
  engine (FetchFile f) (fun _ => true) (fun s => s).

Definition FFmpeg_writeFile (path : string) : Async unit :=
  engine (WriteFile path) (fun _ => true)
    (fun s => set_fs (path :: unlink path (fs s)) s).

Definition FFmpeg_exec (args : list string) : Async unit :=
  engine (Exec args) (fun _ => true)
    (fun s => set_fs (last args "" :: unlink (last args "") (fs s)) s).

Definition FFmpeg_readFile (path : string) : Async unit :=
  engine (ReadFile path) (fun s => mem path (fs s)) (fun s => s).

Definition FFmpeg_deleteFile (path : string) : Async unit :=
  engine (DeleteFile path) (fun s => mem path (fs s))
    (fun s => set_fs (unlink path (fs s)) s).

Definition initializeFFmpeg : Async nat :=
  cur <- read ffmpegRef ;;
  match cur with
  | Some ffmpeg => ret ffmpeg
  | None =>
      ffmpeg <- new_FFmpeg ;;
      act (setConversionState
             (ConversionProgress.Build_t Phase.loading "Loading FFmpeg..." None)) ;;
      try_catch
        (FFmpeg_load ;;
         act (set_ffmpegRef (Some ffmpeg)) ;;
         ret ffmpeg)
        (fun error =>
           console_error error ;;
           throw "Failed to initialize video converter")
  end.

Definition convertVideo_try (outputFormat : string)
    (uploadedFiles : list FileConversion.t)
    (fileConversion : FileConversion.t) : Async unit :=
  ffmpeg <- initializeFFmpeg ;;
  act (setUploadedFiles (mapJob fileConversion markConverting)) ;;
  act (setConversionState
         (ConversionProgress.Build_t Phase.converting
            ("Converting " ++ name (FileConversion.file fileConversion)
               ++ " to ." ++ outputFormat ++ "...")
            (Some 0))) ;;
  t1 <- Date_now ;;
  let inputName := inputNameAt t1 fileConversion in
  fetchFile (FileConversion.file fileConversion) ;;
  FFmpeg_writeFile inputName ;;
  t2 <- Date_now ;;
  let outputName := outputNameAt t2 outputFormat in
  FFmpeg_exec (buildArgs outputFormat inputName outputName) ;;
  FFmpeg_readFile outputName ;;
  outputUrl <- URL_createObjectURL (mimeTypeOf outputFormat) ;;
  act (setUploadedFiles (mapJob fileConversion (markCompleted outputUrl))) ;;
  FFmpeg_deleteFile inputName ;;
  FFmpeg_deleteFile outputName ;;
  let allCompleted :=
    forallb (fun fc =>
               same_file (FileConversion.file fc) (FileConversion.file fileConversion)
               || Status.eqb (FileConversion.status fc) Status.completed
               || Status.eqb (FileConversion.status fc) Status.error)
            uploadedFiles in
  if allCompleted
  then act (setConversionState
              (ConversionProgress.Build_t Phase.completed
                 "All conversions completed!" (Some 100)))
  else ret tt.

Definition convertVideo (outputFormat : string)
    (uploadedFiles : list FileConversion.t)
    (fileConversion : FileConversion.t) : Async unit :=
  try_catch
    (convertVideo_try outputFormat uploadedFiles fileConversion)
    (fun error =>
       console_error error ;;
       act (setUploadedFiles (mapJob fileConversion markError))).

Definition onDrop (outputFormat : string)
    (uploadedFiles : list FileConversion.t)
    (acceptedFiles : list File) : Async unit :=
  let currentCount := length uploadedFiles in
  let availableSlots := (5 - Z.of_nat currentCount)%Z in
  let filesToProcess := JS.slice0 acceptedFiles availableSlots in
  let newFiles := map pendingJob filesToProcess in
  act (setUploadedFiles (fun prev => prev ++ newFiles)%list) ;;
  for_of newFiles (convertVideo outputFormat uploadedFiles).

Definition dropFiles (names : list string) (s : Sys) : Sys :=
  let acceptedFiles := browserFiles (nextFile s) names in
  snd (onDrop (outputFormat s) (uploadedFiles s) acceptedFiles
         (set_nextFile (nextFile s + length names) s)).

(** A session: the actions made while the component waits, each drop with
    the clicks made while it is processed. *)
Definition step (s : Sys) (a : Action) : Sys :=
  match a with
  | Drop names =>
      if Nat.ltb (length (uploadedFiles s)) 5 && negb (busy s)
      then dropFiles names s else s
  | _ => step faults latency s a
  end.

Definition run (acts : list Action) : Sys := fold_left step acts initial.

End Clicks.

End Interleaved.

(** * Vocabulary of the specifications *)

(** ** One conversion *)

(** An update of a job record that leaves its file alone. *)
Definition keepsFile (g : FileConversion.t -> FileConversion.t) : Prop :=
  forall x, FileConversion.file (g x) = FileConversion.file x.

(** [Extends P old new]: [new] is [old] with entries that satisfy [P]
    pushed in front. *)
Inductive Extends {A : Type} (P : A -> Prop) (old : list A) : list A -> Prop :=
| Extends_same : Extends P old old
| Extends_push x l : P x -> Extends P old l -> Extends P old (x :: l).

(** The URL the next call of [URL.createObjectURL] returns. *)
Definition newUrl (s : Sys) : string :=
  "blob:" ++ JS.toString (length (objectUrls s)).

(** An update leaves the error text alone or sets the fixed one. *)
Definition fixedErrorText (before after : FileConversion.t) : Prop :=
  FileConversion.error after = FileConversion.error before \/
  FileConversion.error after = Some "Conversion failed".

(** What the job record of the converted file looks like once
    [convertVideo] has returned, as an update [g] of the record it had
    before. *)
Definition finalUpdate (s s' : Sys)
    (g : FileConversion.t -> FileConversion.t) : Prop :=
  keepsFile g /\
  (forall x, terminalStatus (FileConversion.status (g x)) = true) /\
  (forall x, FileConversion.status (g x) = Status.error ->
             FileConversion.error (g x) = Some "Conversion failed") /\
  (forall x, fixedErrorText x (g x)) /\
  ((objectUrls s' = objectUrls s /\
    forall x, FileConversion.downloadUrl (g x) = FileConversion.downloadUrl x) \/
   (exists mime, objectUrls s' = (newUrl s, mime) :: objectUrls s /\
    forall x, FileConversion.downloadUrl (g x) = Some (newUrl s))).

(** The engine calls one conversion may issue. *)
Definition callOf (fmt : string) (fc : FileConversion.t) (s : Sys)
    (c : EngineCall) : Prop :=
  match c with
  | Load => ffmpegRef s = None
  | FetchFile f => f = FileConversion.file fc
  | WriteFile p => exists t, p = inputNameAt t fc
  | Exec args =>
      exists t1 t2, args = buildArgs fmt (inputNameAt t1 fc) (outputNameAt t2 fmt)
  | ReadFile p => exists t, p = outputNameAt t fmt
  | DeleteFile p =>
      (exists t, p = inputNameAt t fc) \/ (exists t, p = outputNameAt t fmt)
  end.

(** A snapshot taken during the conversion of [fc]: the job list [l] with
    the record of [fc] updated. *)
Definition touchesOnly (fc : FileConversion.t) (l : list FileConversion.t)
    (snap : Snapshot) : Prop :=
  exists g, keepsFile g /\ (forall x, fixedErrorText x (g x)) /\
            fst snap = mapJob fc g l.

(** The state [s] in the middle of the [try] block of a conversion that
    started in [s0]; [done] tells whether the job has been marked
    completed yet. *)
Record Prog (fmt : string) (fc : FileConversion.t) (s0 : Sys)
    (done : bool) (s : Sys) : Prop := {
  pg_jobs :
    exists g, uploadedFiles s = mapJob fc g (uploadedFiles s0) /\
              keepsFile g /\
              (forall x, FileConversion.error (g x) = FileConversion.error x) /\
              (if done
               then (forall x, FileConversion.status (g x) = Status.completed /\
                               FileConversion.downloadUrl (g x) = Some (newUrl s0)) /\
                    exists mime, objectUrls s = (newUrl s0, mime) :: objectUrls s0
               else (forall x, FileConversion.downloadUrl (g x)
                               = FileConversion.downloadUrl x) /\
                    objectUrls s = objectUrls s0);
  pg_history :
    Extends (touchesOnly fc (uploadedFiles s0)) (history s0) (history s);
  pg_calls : Extends (callOf fmt fc s0) (engineCalls s0) (engineCalls s);
  pg_format : outputFormat s = outputFormat s0;
  pg_nextFile : nextFile s = nextFile s0;
  pg_revoked : revoked s = revoked s0;
  pg_downloads : downloads s = downloads s0;
  pg_engine : forall h, ffmpegRef s0 = Some h ->
                        ffmpegRef s = Some h /\ instances s = instances s0
}.

(** The state [s'] in which [convertVideo] returns when started in [s]. *)
Record convertVideo_post (fmt : string) (fc : FileConversion.t)
    (s s' : Sys) : Prop := {
  cv_jobs :
    exists g, uploadedFiles s' = mapJob fc g (uploadedFiles s) /\
              finalUpdate s s' g;
  cv_history :
    Extends (touchesOnly fc (uploadedFiles s)) (history s) (history s');
  cv_calls : Extends (callOf fmt fc s) (engineCalls s) (engineCalls s');
  cv_format : outputFormat s' = outputFormat s;
  cv_nextFile : nextFile s' = nextFile s;
  cv_revoked : revoked s' = revoked s;
  cv_downloads : downloads s' = downloads s;
  cv_engine : forall h, ffmpegRef s = Some h ->
                        ffmpegRef s' = Some h /\ instances s' = instances s
}.

Arguments buildArgs : simpl never.
Arguments inputNameAt : simpl never.
Arguments outputNameAt : simpl never.
Arguments mimeTypeOf : simpl never.
Arguments newUrl : simpl never.
Arguments mapJob : simpl never.
Arguments JS.toString : simpl never.
Arguments mem : simpl never.
Arguments unlink : simpl never.

(** [spec P m Q E]: started in a state that satisfies [P], [m] either
    returns [a] in a state that satisfies [Q a] or throws in a state that
    satisfies [E]. *)
Definition spec {A : Type} (P : Sys -> Prop) (m : Async A)
    (Q : A -> Sys -> Prop) (E : Sys -> Prop) : Prop :=
  forall s, P s ->
    match m s with
    | (Return a, s') => Q a s'
    | (Throw _, s') => E s'
    end.

(** The state in which the [try] block throws. *)
Definition anyProg (fmt : string) (fc : FileConversion.t) (s0 s : Sys) : Prop :=
  exists d, Prog fmt fc s0 d s.

(** ** Job lists and reachable states *)

Definition refOf (fc : FileConversion.t) : nat := ref (FileConversion.file fc).

(** A finished job: completed or failed. *)
Definition terminal (fc : FileConversion.t) : Prop :=
  terminalStatus (FileConversion.status fc) = true.

Definition isPending (fc : FileConversion.t) : Prop :=
  FileConversion.status fc = Status.pending.

(** The error text of a job is unset or the fixed one. *)
Definition fixedError (fc : FileConversion.t) : Prop :=
  FileConversion.error fc = None \/
  FileConversion.error fc = Some "Conversion failed".

(** The object URLs a job list holds ([fc.downloadUrl] when truthy). *)
Definition heldUrls (l : list FileConversion.t) : list string :=
  flat_map (fun fc =>
              match FileConversion.downloadUrl fc with
              | Some url => if JS.truthy (Some url) then [url] else []
              | None => []
              end) l.

(** The [k]-th object URL created since the page was loaded. *)
Definition urlOf (k : nat) : string := "blob:" ++ JS.toString k.

Definition failedWithFixedText (fc : FileConversion.t) : Prop :=
  FileConversion.status fc = Status.error ->
  FileConversion.error fc = Some "Conversion failed".

Definition createdUrl (s : Sys) (u : string) : Prop :=
  exists k, k < length (objectUrls s) /\ u = urlOf k.

(** What holds of the state at any time: the capacity, distinct files,
    fixed error texts in every job list shown so far, and object URLs that
    are distinct, created by the component and not revoked while held. *)
Record Inv (s : Sys) : Prop := {
  i_cap : length (uploadedFiles s) <= 5;
  i_refs : NoDup (map refOf (uploadedFiles s));
  i_fresh : Forall (fun fc => refOf fc < nextFile s) (uploadedFiles s);
  i_errors : Forall fixedError (uploadedFiles s);
  i_history : Forall (fun snap => Forall fixedError (fst snap)) (history s);
  i_urls : NoDup (heldUrls (uploadedFiles s) ++ revoked s)%list;
  i_created : Forall (createdUrl s) (heldUrls (uploadedFiles s) ++ revoked s)%list;
  i_failed : Forall failedWithFixedText (uploadedFiles s)
}.

(** A job list in which the jobs are processed in order: finished jobs
    first, then at most one job that has left [pending], then pending
    jobs only. *)
Definition orderedJobs (l : list FileConversion.t) : Prop :=
  exists T P, l = (T ++ P)%list /\ Forall terminal T /\ Forall isPending (tl P).

(** The engine calls a batch may issue. *)
Definition batchCall (fmt : string) (files : list File) (s0 : Sys)
    (c : EngineCall) : Prop :=
  match c with
  | Load => ffmpegRef s0 = None
  | FetchFile f => In f files
  | Exec args =>
      exists fc t1 t2,
        In (FileConversion.file fc) files /\
        args = buildArgs fmt (inputNameAt t1 fc) (outputNameAt t2 fmt)
  | _ => True
  end.

(** The state [s'] after the loop of [onDrop] over the pending jobs of
    [todo], started in [s] with the jobs [done] in front of them. *)
Record batch_post (fmt : string) (todo : list File)
    (done : list FileConversion.t) (s s' : Sys) : Prop := {
  bp_inv : Inv s';
  bp_jobs :
    exists done', uploadedFiles s' = (done ++ done')%list /\
                  Forall terminal done' /\
                  Forall failedWithFixedText done' /\
                  map FileConversion.file done' = todo;
  bp_history : Extends (fun snap => orderedJobs (fst snap)) (history s) (history s');
  bp_calls : Extends (batchCall fmt todo s) (engineCalls s) (engineCalls s');
  bp_format : outputFormat s' = outputFormat s;
  bp_nextFile : nextFile s' = nextFile s;
  bp_revoked : revoked s' = revoked s;
  bp_downloads : downloads s' = downloads s;
  bp_engine : forall h, ffmpegRef s = Some h ->
                        ffmpegRef s' = Some h /\ instances s' = instances s
}.

(** The files a drop enqueues: the first [5 - n] dropped files. *)
Definition enqueued (names : list string) (s : Sys) : list File :=
  browserFiles (nextFile s) (firstn (5 - length (uploadedFiles s)) names).

(** The state in which the loop of [onDrop] starts. *)
Definition enqueue (names : list string) (s : Sys) : Sys :=
  setUploadedFiles (fun prev => prev ++ map pendingJob (enqueued names s))%list
    (set_nextFile (nextFile s + length names) s).

(** No conversion is in flight: the invariants hold and every job is
    finished. *)
Definition Quiet (s : Sys) : Prop := Inv s /\ Forall terminal (uploadedFiles s).

(** What a drop of [names] does to a state [s] in which no job is in
    flight. *)
Record drop_post (names : list string) (s s' : Sys) : Prop := {
  dp_quiet : Quiet s';
  dp_jobs :
    exists done', uploadedFiles s' = (uploadedFiles s ++ done')%list /\
                  Forall terminal done' /\
                  Forall failedWithFixedText done' /\
                  map FileConversion.file done' = enqueued names s;
  dp_history :
    exists later,
      history s' = (later ++ (uploadedFiles s ++ map pendingJob (enqueued names s),
                              phaseOf s) :: history s)%list /\
      Forall (fun snap => orderedJobs (fst snap)) later;
  dp_calls :
    Extends (batchCall (outputFormat s) (enqueued names s) s)
            (engineCalls s) (engineCalls s');
  dp_format : outputFormat s' = outputFormat s;
  dp_nextFile : nextFile s' = nextFile s + length names;
  dp_revoked : revoked s' = revoked s;
  dp_downloads : downloads s' = downloads s;
  dp_engine : forall h, ffmpegRef s = Some h ->
                        ffmpegRef s' = Some h /\ instances s' = instances s
}.

(** ** Engine behaviours and observations used in the examples *)

Definition noFaults : nat -> option string := fun _ => None.

(** The engine rejects its [k]-th call with the raw error [text]. *)
Definition faultAt (k : nat) (text : string) : nat -> option string :=
  fun i => if Nat.eqb i k then Some text else None.

Definition unitLatency : nat -> nat := fun _ => 1.

(** The user clicks nothing while an engine call is pending. *)
Definition noClicks : nat -> list Click := fun _ => [].

(** The user clicks [c] while the [k]-th engine call is pending, and
    nothing else. *)
Definition clickDuring (k : nat) (c : Click) : nat -> list Click :=
  fun i => if Nat.eqb i k then [c] else [].

Definition showJobs (s : Sys) :
    list (string * Status.t * option string * option string) :=
  map (fun fc => (name (FileConversion.file fc), FileConversion.status fc,
                  FileConversion.downloadUrl fc, FileConversion.error fc))
      (uploadedFiles s).

(** The statuses and the phase after every state update, oldest first. *)
Definition statusTrace (s : Sys) : list (list Status.t * Phase.t) :=
  map (fun snap => (map FileConversion.status (fst snap), snd snap))
      (rev (history s)).

(** The commands passed to [ffmpeg.exec], oldest first. *)
Definition execs (s : Sys) : list (list string) :=
  flat_map (fun c => match c with Exec args => [args] | _ => [] end)
           (rev (engineCalls s)).

(** ** Order of processing *)

(** No job has left [pending] before every job in front of it is finished. *)
Definition processedInOrder (jobs : list FileConversion.t) : Prop :=
  forall i j a b,
    i < j -> nth_error jobs i = Some a -> nth_error jobs j = Some b ->
    FileConversion.status b <> Status.pending -> terminal a.

(** At most one job is being converted. *)
Definition oneAtATime (jobs : list FileConversion.t) : Prop :=
  forall i j a b,
    i < j -> nth_error jobs i = Some a -> nth_error jobs j = Some b ->
    FileConversion.status a = Status.converting ->
    FileConversion.status b = Status.converting -> False.

(** ** Further vocabulary *)

Definition isLoad (c : EngineCall) : bool :=
  match c with Load => true | _ => false end.

(** The number of [ffmpeg.load()] calls made so far. *)
Definition loadCalls (s : Sys) : nat := length (filter isLoad (engineCalls s)).

(** The aggregate phase has never been [error]. *)
Definition neverError (s : Sys) : Prop :=
  Phase.eqb (phaseOf s) Phase.error = false /\
  Forall (fun snap => Phase.eqb (snd snap) Phase.error = false) (history s).

(** Every object URL created so far is held by a job or has been revoked. *)
Definition noOrphanUrl (s : Sys) : Prop :=
  Forall (fun url => In url (heldUrls (uploadedFiles s) ++ revoked s)%list)
         (map fst (objectUrls s)).

(** The test of [convertVideo] on the job list its closure captured. *)
Definition allCompleted (fileConversion : FileConversion.t)
    (uploadedFiles : list FileConversion.t) : bool :=
  forallb (fun fc =>
             same_file (FileConversion.file fc) (FileConversion.file fileConversion)
             || Status.eqb (FileConversion.status fc) Status.completed
             || Status.eqb (FileConversion.status fc) Status.error)
          uploadedFiles.

(** The phase in which the [try] block of [convertVideo] ends. *)
Definition phaseAtEnd (snap : list FileConversion.t) (fc : FileConversion.t)
    : Phase.t :=
  if allCompleted fc snap then Phase.completed else Phase.converting.

(** The engine's file system after a conversion that wrote [i] and [o]
    and deleted both. *)
Definition cleanedUp (i o : string) (before : list string) : list string :=
  unlink o (unlink i (o :: unlink o (i :: unlink i before))).

(** The order in which a job goes through its statuses. *)
Definition rank (st : Status.t) : nat :=
  match st with
  | Status.pending => 0
  | Status.converting => 1
  | Status.completed => 2
  | Status.error => 3
  end.

(** From one job list to the next every row keeps its file and its status
    does not go back. *)
Definition advances (older newer : list FileConversion.t) : Prop :=
  forall i x y,
    nth_error older i = Some x -> nth_error newer i = Some y ->
    FileConversion.file y = FileConversion.file x /\
    rank (FileConversion.status x) <= rank (FileConversion.status y).

(** A sequence of job lists, newest first, each of which advances the one
    before it. *)
Inductive Climbing : list (list FileConversion.t) -> Prop :=
| Climbing_nil : Climbing []
| Climbing_one l : Climbing [l]
| Climbing_cons newer older rest :
    advances older newer -> Climbing (older :: rest) ->
    Climbing (newer :: older :: rest).

(** The job list is the one of the last snapshot, and the snapshots climb. *)
Definition Trail (s : Sys) : Prop :=
  uploadedFiles s = hd [] (map fst (history s)) /\
  Climbing (map fst (history s)).

(** During the conversion of the file [f], whose row stands between the
    rows [done] and [queue]: the status of that row has rank [k] at most. *)
Definition rowAt (done queue : list FileConversion.t) (f : File) (k : nat)
    (s : Sys) : Prop :=
  Trail s /\
  NoDup (map refOf (uploadedFiles s)) /\
  exists y, uploadedFiles s = (done ++ y :: queue)%list /\
            FileConversion.file y = f /\
            rank (FileConversion.status y) <= k.

(** A completed job holds a non-empty download URL and no error text. *)
Definition downloadable (fc : FileConversion.t) : Prop :=
  FileConversion.status fc = Status.completed ->
  JS.truthy (FileConversion.downloadUrl fc) = true /\
  FileConversion.error fc = None.

(** * Properties of the component *)

(** ** What one conversion does to the state *)

Lemma mapJob_mapJob target g1 g2 l :
  keepsFile g1 ->
  mapJob target g2 (mapJob target g1 l) = mapJob target (fun x => g2 (g1 x)) l.
Proof.
  intros Hk. unfold mapJob. rewrite map_map. apply map_ext. intros a.
  destruct (same_file (FileConversion.file a) (FileConversion.file target)) eqn:E.
  - rewrite Hk, E. reflexivity.
  - rewrite E. reflexivity.
Qed.

Lemma mapJob_id target l : mapJob target (fun x => x) l = l.
Proof.
  unfold mapJob. rewrite <- (map_id l) at 2. apply map_ext. intros a.
  destruct same_file; reflexivity.
Qed.

Lemma mapJob_length target g l : length (mapJob target g l) = length l.
Proof. apply length_map. Qed.

Lemma Extends_app {A : Type} (P : A -> Prop) old new :
  Extends P old new ->
  exists added, new = (added ++ old)%list /\ Forall P added.
Proof.
  induction 1 as [|x l Hx _ [added [-> Hall]]].
  - exists []. split; [reflexivity | constructor].
  - exists (x :: added). split; [reflexivity | constructor; assumption].
Qed.

Lemma Extends_trans {A : Type} (P : A -> Prop) l1 l2 l3 :
  Extends P l1 l2 -> Extends P l2 l3 -> Extends P l1 l3.
Proof.
  intros H12 H23. induction H23; [assumption | constructor; assumption].
Qed.

Lemma Extends_weaken {A : Type} (P Q : A -> Prop) old new :
  (forall x, P x -> Q x) -> Extends P old new -> Extends Q old new.
Proof. intros HPQ H. induction H; constructor; auto. Qed.

(** *** Specifications of asynchronous code *)

Lemma spec_ret {A : Type} (P : Sys -> Prop) (a : A) (Q : A -> Sys -> Prop) E :
  (forall s, P s -> Q a s) -> spec P (ret a) Q E.
Proof. intros H s Hs. simpl. auto. Qed.

Lemma spec_throw {A : Type} (P : Sys -> Prop) e (Q : A -> Sys -> Prop)
    (E : Sys -> Prop) :
  (forall s, P s -> E s) -> spec P (throw e) Q E.
Proof. intros H s Hs. simpl. auto. Qed.

Lemma spec_act (P : Sys -> Prop) f (Q : unit -> Sys -> Prop) E :
  (forall s, P s -> Q tt (f s)) -> spec P (act f) Q E.
Proof. intros H s Hs. simpl. auto. Qed.

Lemma spec_read {A : Type} (P : Sys -> Prop) (f : Sys -> A)
    (Q : A -> Sys -> Prop) E :
  (forall s, P s -> Q (f s) s) -> spec P (read f) Q E.
Proof. intros H s Hs. simpl. auto. Qed.

Lemma spec_bind {A B : Type} (P : Sys -> Prop) (m : Async A) (k : A -> Async B)
    (Q1 : A -> Sys -> Prop) (Q : B -> Sys -> Prop) E :
  spec P m Q1 E -> (forall a, spec (Q1 a) (k a) Q E) -> spec P (bind m k) Q E.
Proof.
  intros Hm Hk s Hs. unfold bind. specialize (Hm s Hs).
  destruct (m s) as [[a|e] s1]; [apply (Hk a s1 Hm) | exact Hm].
Qed.

Lemma spec_try {A : Type} (P : Sys -> Prop) (m : Async A) h
    (E1 : Sys -> Prop) (Q : A -> Sys -> Prop) E :
  spec P m Q E1 -> (forall e, spec E1 (h e) Q E) -> spec P (try_catch m h) Q E.
Proof.
  intros Hm Hh s Hs. unfold try_catch. specialize (Hm s Hs).
  destruct (m s) as [[a|e] s1]; [exact Hm | apply (Hh e s1 Hm)].
Qed.

Lemma spec_engine faults latency c possible effect
    (P : Sys -> Prop) (Q : unit -> Sys -> Prop) (E : Sys -> Prop) :
  (forall s t, P s -> E (issue c t s)) ->
  (forall s t, P s -> Q tt (effect (issue c t s))) ->
  spec P (engine faults latency c possible effect) Q E.
Proof.
  intros HE HQ s Hs. unfold engine.
  destruct (faults _); [apply HE; assumption|].
  destruct (possible _); [apply HQ | apply HE]; assumption.
Qed.

Section ConvertVideoProof.

Variable faults : nat -> option string.
Variable latency : nat -> nat.
Variable fmt : string.
Variable fc : FileConversion.t.
Variable s0 : Sys.

Lemma Prog_start : Prog fmt fc s0 false s0.
Proof.
  constructor; try reflexivity; try apply Extends_same.
  - exists (fun x => x). rewrite mapJob_id. repeat split.
  - intros h Hh. split; [assumption | reflexivity].
Qed.

Lemma Prog_issue d s c t :
  Prog fmt fc s0 d s -> callOf fmt fc s0 c -> Prog fmt fc s0 d (issue c t s).
Proof.
  intros [Hj Hh Hc Hf Hn Hr Hd He] Hcall.
  constructor; simpl; try assumption.
  apply Extends_push; assumption.
Qed.

Lemma Prog_set_fs d s l :
  Prog fmt fc s0 d s -> Prog fmt fc s0 d (set_fs l s).
Proof. intros [Hj Hh Hc Hf Hn Hr Hd He]. constructor; simpl; assumption. Qed.

Lemma Prog_set_console d s l :
  Prog fmt fc s0 d s -> Prog fmt fc s0 d (set_console l s).
Proof. intros [Hj Hh Hc Hf Hn Hr Hd He]. constructor; simpl; assumption. Qed.

Lemma Prog_set_instances s n :
  ffmpegRef s0 = None ->
  Prog fmt fc s0 false s -> Prog fmt fc s0 false (set_instances n s).
Proof.
  intros Hnone [Hj Hh Hc Hf Hn Hr Hd He]. constructor; simpl; try assumption.
  intros h Hsome. congruence.
Qed.

Lemma Prog_set_ffmpegRef s r :
  ffmpegRef s0 = None ->
  Prog fmt fc s0 false s -> Prog fmt fc s0 false (set_ffmpegRef r s).
Proof.
  intros Hnone [Hj Hh Hc Hf Hn Hr Hd He]. constructor; simpl; try assumption.
  intros h Hsome. congruence.
Qed.

Lemma Prog_setConversionState d s c :
  Prog fmt fc s0 d s -> Prog fmt fc s0 d (setConversionState c s).
Proof.
  intros [Hj Hh Hc Hf Hn Hr Hd He]. constructor; simpl; try assumption.
  apply Extends_push; [|assumption].
  destruct Hj as (g & Hg & Hk & Herr & _). exists g.
  split; [assumption|]. split; [|assumption]. intro x. left. apply Herr.
Qed.

Lemma Prog_markConverting s :
  Prog fmt fc s0 false s ->
  Prog fmt fc s0 false (setUploadedFiles (mapJob fc markConverting) s).
Proof.
  intros [Hj Hh Hc Hf Hn Hr Hd He].
  destruct Hj as (g & Hg & Hk & Herr & Hurl & Hobj).
  assert (Hnew : uploadedFiles (setUploadedFiles (mapJob fc markConverting) s)
                 = mapJob fc (fun x => markConverting (g x)) (uploadedFiles s0)).
  { simpl. rewrite Hg. apply mapJob_mapJob. assumption. }
  assert (Hk' : keepsFile (fun x => markConverting (g x))).
  { intro x. simpl. apply Hk. }
  constructor; try assumption.
  - exists (fun x => markConverting (g x)).
    split; [assumption|]. split; [assumption|].
    split; [intro x; simpl; apply Herr|].
    split; [intro x; simpl; apply Hurl | exact Hobj].
  - simpl. apply Extends_push; [|assumption].
    exists (fun x => markConverting (g x)). split; [assumption|].
    split; [intro x; left; simpl; apply Herr|]. exact Hnew.
Qed.

Lemma Prog_markCompleted s mime :
  Prog fmt fc s0 false s ->
  Prog fmt fc s0 true
    (setUploadedFiles (mapJob fc (markCompleted (newUrl s)))
       (set_objectUrls ((newUrl s, mime) :: objectUrls s) s)).
Proof.
  intros [Hj Hh Hc Hf Hn Hr Hd He].
  destruct Hj as (g & Hg & Hk & Herr & Hurl & Hobj).
  assert (Hu : newUrl s = newUrl s0) by (unfold newUrl; rewrite Hobj; reflexivity).
  assert (Hk' : keepsFile (fun x => markCompleted (newUrl s) (g x))).
  { intro x. simpl. apply Hk. }
  constructor; try assumption.
  - exists (fun x => markCompleted (newUrl s) (g x)). split; [|split; [|split; [|split]]].
    + simpl. rewrite Hg. apply mapJob_mapJob. assumption.
    + assumption.
    + intro x. simpl. apply Herr.
    + intro x. simpl. rewrite Hu. split; reflexivity.
    + exists mime. simpl. rewrite Hu, Hobj. reflexivity.
  - simpl. apply Extends_push; [|assumption].
    exists (fun x => markCompleted (newUrl s) (g x)). split; [assumption|].
    split; [intro x; left; simpl; apply Herr|].
    simpl. rewrite Hg. apply mapJob_mapJob. assumption.
Qed.

(** The [catch] block: whatever the [try] block had reached, the job is
    marked as failed. *)
Lemma Prog_markError d s :
  Prog fmt fc s0 d s ->
  convertVideo_post fmt fc s0 (setUploadedFiles (mapJob fc markError) s).
Proof.
  intros [Hj Hh Hc Hf Hn Hr Hd He].
  destruct Hj as (g & Hg & Hk & Herr & Hstage).
  assert (Hk' : keepsFile (fun x => markError (g x))).
  { intro x. simpl. apply Hk. }
  assert (Hnew : uploadedFiles (setUploadedFiles (mapJob fc markError) s)
                 = mapJob fc (fun x => markError (g x)) (uploadedFiles s0)).
  { simpl. rewrite Hg. apply mapJob_mapJob. assumption. }
  constructor; try assumption.
  - exists (fun x => markError (g x)). split; [assumption|].
    split; [assumption|]. split; [intro; reflexivity|].
    split; [intros; reflexivity|]. split; [intro; right; reflexivity|].
    destruct d.
    + destruct Hstage as [Hall [mime Hobj]]. right. exists mime.
      split; [exact Hobj|]. intro x. simpl. apply Hall.
    + destruct Hstage as [Hurl Hobj]. left.
      split; [exact Hobj|]. intro x. simpl. apply Hurl.
  - simpl. apply Extends_push; [|assumption].
    exists (fun x => markError (g x)). split; [assumption|].
    split; [intro x; right; reflexivity | exact Hnew].
Qed.

(** The end of the [try] block. *)
Lemma Prog_done s : Prog fmt fc s0 true s -> convertVideo_post fmt fc s0 s.
Proof.
  intros [Hj Hh Hc Hf Hn Hr Hd He].
  destruct Hj as (g & Hg & Hk & Herr & Hall & mime & Hobj).
  constructor; try assumption.
  exists g. split; [assumption|].
  split; [assumption|].
  split; [intro x; destruct (Hall x) as [-> _]; reflexivity|].
  split; [intros x; destruct (Hall x) as [-> _]; discriminate|].
  split; [intro x; left; apply Herr|].
  right. exists mime. split; [assumption|]. intro x. apply Hall.
Qed.

Lemma spec_initializeFFmpeg :
  spec (fun s => s = s0) (initializeFFmpeg faults latency)
       (fun _ s => Prog fmt fc s0 false s) (anyProg fmt fc s0).
Proof.
  unfold initializeFFmpeg.
  apply spec_bind with (Q1 := fun cur s => s = s0 /\ cur = ffmpegRef s0).
  { apply spec_read. intros s ->. split; reflexivity. }
  intros [h|].
  - apply spec_ret. intros s [-> _]. apply Prog_start.
  - apply spec_bind
      with (Q1 := fun _ s => ffmpegRef s0 = None /\ Prog fmt fc s0 false s).
    { intros s [-> Hnone]. simpl. split; [congruence|].
      apply Prog_set_instances; [congruence | apply Prog_start]. }
    intros ffmpeg.
    apply spec_bind
      with (Q1 := fun _ s => ffmpegRef s0 = None /\ Prog fmt fc s0 false s).
    { apply spec_act. intros s [Hnone Hp]. split; [assumption|].
      apply Prog_setConversionState. assumption. }
    intros _.
    apply spec_try with (E1 := fun s => Prog fmt fc s0 false s).
    + apply spec_bind
        with (Q1 := fun _ s => ffmpegRef s0 = None /\ Prog fmt fc s0 false s).
      { apply spec_engine.
        - intros s t [Hnone Hp]. apply Prog_issue; assumption.
        - intros s t [Hnone Hp]. split; [assumption|].
          apply Prog_issue; assumption. }
      intros _.
      apply spec_bind with (Q1 := fun _ s => Prog fmt fc s0 false s).
      { apply spec_act. intros s [Hnone Hp].
        apply Prog_set_ffmpegRef; assumption. }
      intros _. apply spec_ret. auto.
    + intros e.
      apply spec_bind with (Q1 := fun _ s => Prog fmt fc s0 false s).
      { apply spec_act. intros s Hp. apply Prog_set_console. assumption. }
      intros _. apply spec_throw. intros s Hp. exists false. assumption.
Qed.

Ltac engine_call d :=
  apply spec_bind with (Q1 := fun _ s => Prog fmt fc s0 d s);
  [ apply spec_engine; intros s t Hp;
    [ exists d; apply Prog_issue; [ assumption | simpl; eauto ]
    | try apply Prog_set_fs; apply Prog_issue; [ assumption | simpl; eauto ] ]
  | intros _ ].

Lemma spec_convertVideo_try snap :
  spec (fun s => s = s0) (convertVideo_try faults latency fmt snap fc)
       (fun _ s => Prog fmt fc s0 true s) (anyProg fmt fc s0).
Proof.
  unfold convertVideo_try.
  apply spec_bind with (Q1 := fun _ s => Prog fmt fc s0 false s);
    [ apply spec_initializeFFmpeg | intros ffmpeg ].
  apply spec_bind with (Q1 := fun _ s => Prog fmt fc s0 false s);
    [ apply spec_act; intros s Hp; apply Prog_markConverting; assumption
    | intros _ ].
  apply spec_bind with (Q1 := fun _ s => Prog fmt fc s0 false s);
    [ apply spec_act; intros s Hp; apply Prog_setConversionState; assumption
    | intros _ ].
  apply spec_bind with (Q1 := fun _ s => Prog fmt fc s0 false s);
    [ apply spec_read; auto | intros t1 ].
  engine_call false.
  engine_call false.
  apply spec_bind with (Q1 := fun _ s => Prog fmt fc s0 false s);
    [ apply spec_read; auto | intros t2 ].
  engine_call false.
  engine_call false.
  apply spec_bind
    with (Q1 := fun url s =>
            exists sp, Prog fmt fc s0 false sp /\ url = newUrl sp /\
              s = set_objectUrls
                    ((newUrl sp, mimeTypeOf fmt) :: objectUrls sp) sp).
  { intros s Hp. unfold URL_createObjectURL.
    exists s. split; [assumption | split; reflexivity]. }
  intros outputUrl.
  apply spec_bind with (Q1 := fun _ s => Prog fmt fc s0 true s).
  { apply spec_act. intros s (sp & Hp & -> & ->).
    apply Prog_markCompleted. assumption. }
  intros _.
  engine_call true.
  engine_call true.
  destruct (forallb _ snap).
  - apply spec_act. intros s Hp. apply Prog_setConversionState. assumption.
  - apply spec_ret. auto.
Qed.

Lemma spec_convertVideo snap :
  spec (fun s => s = s0) (convertVideo faults latency fmt snap fc)
       (fun _ s => convertVideo_post fmt fc s0 s) (fun _ => False).
Proof.
  unfold convertVideo.
  apply spec_try with (E1 := anyProg fmt fc s0).
  - intros s Hs. generalize (spec_convertVideo_try snap s Hs).
    destruct (convertVideo_try _ _ _ _ _ _) as [[a|e] s1]; [apply Prog_done | auto].
  - intros e.
    apply spec_bind with (Q1 := fun _ s => anyProg fmt fc s0 s).
    { apply spec_act. intros s [d Hp]. exists d.
      apply Prog_set_console. assumption. }
    intros _. apply spec_act. intros s [d Hp].
    apply (Prog_markError d). assumption.
Qed.

End ConvertVideoProof.

(** [convertVideo] never throws, and changes the state as
    [convertVideo_post] says. *)
Lemma convertVideo_spec faults latency fmt snap fc s :
  fst (convertVideo faults latency fmt snap fc s) = Return tt /\
  convertVideo_post fmt fc s (snd (convertVideo faults latency fmt snap fc s)).
Proof.
  generalize (spec_convertVideo faults latency fmt fc s snap s eq_refl).
  destruct (convertVideo _ _ _ _ _ _) as [[[]|e] s1]; simpl.
  - auto.
  - intros [].
Qed.

(** ** Job lists *)

Lemma same_file_refOf a b :
  same_file (FileConversion.file a) (FileConversion.file b) = true <->
  refOf a = refOf b.
Proof. unfold same_file, refOf. apply Nat.eqb_eq. Qed.

Lemma mapJob_refs target g l :
  keepsFile g -> map refOf (mapJob target g l) = map refOf l.
Proof.
  intros Hk. unfold mapJob. rewrite map_map. apply map_ext. intros a.
  destruct same_file; [unfold refOf; rewrite Hk|]; reflexivity.
Qed.

Lemma mapJob_files target g l :
  keepsFile g ->
  map FileConversion.file (mapJob target g l) = map FileConversion.file l.
Proof.
  intros Hk. unfold mapJob. rewrite map_map. apply map_ext. intros a.
  destruct same_file; [rewrite Hk|]; reflexivity.
Qed.

Lemma mapJob_app target g l1 l2 :
  mapJob target g (l1 ++ l2)%list
  = (mapJob target g l1 ++ mapJob target g l2)%list.
Proof. apply map_app. Qed.

Lemma mapJob_other target g l :
  ~ In (refOf target) (map refOf l) -> mapJob target g l = l.
Proof.
  induction l as [|a l IH]; intros Hnot; [reflexivity|].
  unfold mapJob in *. simpl in *.
  destruct (same_file _ _) eqn:E.
  - apply same_file_refOf in E. exfalso. apply Hnot. left. assumption.
  - f_equal. apply IH. intros Hin. apply Hnot. right. assumption.
Qed.

(** In a list without repeated files, updating the record of [x] changes
    that one record. *)
Lemma mapJob_at g l1 x l2 :
  NoDup (map refOf (l1 ++ x :: l2)%list) ->
  mapJob x g (l1 ++ x :: l2)%list = (l1 ++ g x :: l2)%list.
Proof.
  intros Hnd. rewrite map_app in Hnd. simpl in Hnd.
  assert (H1 : ~ In (refOf x) (map refOf l1)).
  { intros Hin. apply NoDup_remove_2 in Hnd. apply Hnd.
    apply in_or_app. left. assumption. }
  assert (H2 : ~ In (refOf x) (map refOf l2)).
  { intros Hin. apply NoDup_remove_2 in Hnd. apply Hnd.
    apply in_or_app. right. assumption. }
  rewrite mapJob_app. rewrite (mapJob_other x g l1 H1).
  f_equal. unfold mapJob at 1. simpl.
  assert (E : same_file (FileConversion.file x) (FileConversion.file x) = true)
    by (apply same_file_refOf; reflexivity).
  rewrite E. f_equal. apply (mapJob_other x g l2 H2).
Qed.

(** Either no record of the list belongs to [target], or exactly one. *)
Lemma mapJob_cases target g l :
  NoDup (map refOf l) ->
  mapJob target g l = l \/
  exists l1 x l2, l = (l1 ++ x :: l2)%list /\
                  mapJob target g l = (l1 ++ g x :: l2)%list.
Proof.
  intros Hnd.
  destruct (in_dec Nat.eq_dec (refOf target) (map refOf l)) as [Hin|Hnot].
  - right. apply in_map_iff in Hin. destruct Hin as (x & Hx & Hin).
    apply in_split in Hin. destruct Hin as (l1 & l2 & ->).
    exists l1, x, l2. split; [reflexivity|].
    rewrite <- (mapJob_at g l1 x l2 Hnd).
    unfold mapJob. apply map_ext. intros a. unfold same_file.
    unfold refOf in Hx. rewrite Hx. reflexivity.
  - left. apply mapJob_other. assumption.
Qed.

Lemma heldUrls_app l1 l2 :
  heldUrls (l1 ++ l2)%list = (heldUrls l1 ++ heldUrls l2)%list.
Proof. apply flat_map_app. Qed.

Lemma heldUrls_same target g l :
  (forall x, FileConversion.downloadUrl (g x) = FileConversion.downloadUrl x) ->
  heldUrls (mapJob target g l) = heldUrls l.
Proof.
  intros Hg. unfold heldUrls, mapJob.
  induction l as [|a l IH]; [reflexivity|].
  cbn [map flat_map]. rewrite IH. f_equal.
  destruct same_file; [rewrite Hg|]; reflexivity.
Qed.

Lemma heldUrls_pending files : heldUrls (map pendingJob files) = [].
Proof. induction files as [|f l IH]; [reflexivity | exact IH]. Qed.

Lemma toString_inj a b : JS.toString a = JS.toString b -> a = b.
Proof.
  unfold JS.toString. intros H.
  apply Unsigned.to_uint_inj.
  assert (E : NilEmpty.uint_of_string (NilEmpty.string_of_uint (Nat.to_uint a))
              = NilEmpty.uint_of_string (NilEmpty.string_of_uint (Nat.to_uint b)))
    by (rewrite H; reflexivity).
  rewrite !NilEmpty.usu in E. congruence.
Qed.

Lemma urlOf_inj a b : urlOf a = urlOf b -> a = b.
Proof.
  unfold urlOf. intros H. simpl in H. apply toString_inj. congruence.
Qed.

Lemma urlOf_truthy k : JS.truthy (Some (urlOf k)) = true.
Proof. reflexivity. Qed.

Lemma newUrl_urlOf s : newUrl s = urlOf (length (objectUrls s)).
Proof. reflexivity. Qed.

Lemma NoDup_drop_middle {A : Type} (a b c : list A) :
  NoDup (a ++ b ++ c)%list -> NoDup (a ++ c)%list.
Proof.
  induction b as [|x b IH]; intros H; [exact H|].
  apply IH. simpl in H. apply NoDup_remove_1 in H. exact H.
Qed.

Lemma Forall_mapJob (P : FileConversion.t -> Prop) target g l :
  (forall a, P a -> P (g a)) -> Forall P l -> Forall P (mapJob target g l).
Proof.
  intros Hg Hl. unfold mapJob. apply Forall_map.
  apply Forall_impl with (P := P); [|assumption].
  intros a Ha. destruct same_file; auto.
Qed.

Lemma heldUrls_replace l1 x y l2 rv u :
  heldUrls [y] = [u] ->
  NoDup (heldUrls (l1 ++ x :: l2) ++ rv)%list ->
  ~ In u (heldUrls (l1 ++ x :: l2) ++ rv)%list ->
  NoDup (heldUrls (l1 ++ y :: l2) ++ rv)%list /\
  (forall v, In v (heldUrls (l1 ++ y :: l2) ++ rv)%list ->
             v = u \/ In v (heldUrls (l1 ++ x :: l2) ++ rv)%list).
Proof.
  intros Hy Hnd Hfresh.
  change (x :: l2) with ([x] ++ l2)%list in *.
  change (y :: l2) with ([y] ++ l2)%list.
  rewrite !heldUrls_app in *. rewrite Hy.
  rewrite <- !app_assoc in *.
  split.
  - apply NoDup_drop_middle in Hnd.
    apply (Permutation_NoDup (Permutation_middle _ _ u)).
    constructor; [|assumption].
    intros Hin. apply Hfresh.
    apply in_app_or in Hin. apply in_or_app.
    destruct Hin as [Hin|Hin]; [left; assumption|].
    right. apply in_or_app. right. assumption.
  - intros v Hin. apply in_app_or in Hin. destruct Hin as [Hin|Hin].
    + right. apply in_or_app. left. assumption.
    + simpl in Hin. destruct Hin as [<-|Hin]; [left; reflexivity|].
      right. apply in_or_app. right. apply in_or_app. right. assumption.
Qed.

(** ** Invariants of the component state *)

Lemma fixedError_update x y : fixedErrorText x y -> fixedError x -> fixedError y.
Proof.
  unfold fixedErrorText, fixedError. intros [H|H] Hx; [rewrite H; exact Hx|].
  right. exact H.
Qed.

Lemma Extends_Forall {A : Type} (P Q : A -> Prop) old new :
  (forall x, P x -> Q x) -> Extends P old new -> Forall Q old -> Forall Q new.
Proof.
  intros HPQ H Hold. induction H; [assumption|]. constructor; auto.
Qed.

Lemma convertVideo_post_Inv fmt fc s s' :
  Inv s -> convertVideo_post fmt fc s s' -> Inv s'.
Proof.
  intros [Hcap Hrefs Hfresh Herrs Hhist Hurls Hcr Hfail]
         [Hjobs Hh Hc Hf Hn Hr Hd He].
  destruct Hjobs as (g & Hg & Hk & Hterm & Herr & Htext & Hurl).
  assert (Hsame : heldUrls (uploadedFiles s') = heldUrls (uploadedFiles s) ->
                  (objectUrls s' = objectUrls s \/
                   exists mime, objectUrls s' = (newUrl s, mime) :: objectUrls s) ->
                  NoDup (heldUrls (uploadedFiles s') ++ revoked s')%list /\
                  Forall (createdUrl s')
                         (heldUrls (uploadedFiles s') ++ revoked s')%list).
  { intros -> Hobj. rewrite Hr. split; [assumption|].
    apply Forall_impl with (P := createdUrl s); [|assumption].
    intros u (k & Hlt & ->). exists k. split; [|reflexivity].
    destruct Hobj as [->|[mime ->]]; simpl; lia. }
  assert (Hu : NoDup (heldUrls (uploadedFiles s') ++ revoked s')%list /\
               Forall (createdUrl s')
                      (heldUrls (uploadedFiles s') ++ revoked s')%list).
  { destruct Hurl as [[Hobj Hkeep]|[mime [Hobj Hnew]]].
    - apply Hsame; [|left; assumption].
      rewrite Hg. apply heldUrls_same. assumption.
    - destruct (mapJob_cases fc g (uploadedFiles s) Hrefs)
        as [Hid|(l1 & x & l2 & Hl & Hm)].
      + apply Hsame; [|right; exists mime; assumption].
        rewrite Hg, Hid. reflexivity.
      + rewrite Hg, Hm, Hr. rewrite Hl in Hurls, Hcr.
        assert (Hy : heldUrls [g x] = [newUrl s]).
        { unfold heldUrls. cbn [flat_map]. rewrite Hnew, newUrl_urlOf.
          rewrite urlOf_truthy. reflexivity. }
        assert (Hnot : ~ In (newUrl s)
                         (heldUrls (l1 ++ x :: l2) ++ revoked s)%list).
        { intros Hin. rewrite Forall_forall in Hcr.
          destruct (Hcr _ Hin) as (k & Hlt & Hk').
          rewrite newUrl_urlOf in Hk'. apply urlOf_inj in Hk'. lia. }
        destruct (heldUrls_replace l1 x (g x) l2 (revoked s) (newUrl s)
                    Hy Hurls Hnot) as [Hnd Hin].
        split; [assumption|].
        apply Forall_forall. intros v Hv. destruct (Hin v Hv) as [->|Hold].
        * exists (length (objectUrls s)). rewrite Hobj. simpl.
          split; [lia | apply newUrl_urlOf].
        * rewrite Forall_forall in Hcr. destruct (Hcr v Hold) as (k & Hlt & ->).
          exists k. rewrite Hobj. simpl. split; [lia | reflexivity]. }
  constructor.
  - rewrite Hg, mapJob_length. assumption.
  - rewrite Hg, mapJob_refs; assumption.
  - rewrite Hg, Hn. apply Forall_mapJob; [|assumption].
    intros a Ha. unfold refOf in *. rewrite Hk. assumption.
  - rewrite Hg. apply Forall_mapJob; [|assumption].
    intros a Ha. apply (fixedError_update a); [apply Htext | assumption].
  - apply (Extends_Forall (touchesOnly fc (uploadedFiles s))
             (fun snap => Forall fixedError (fst snap)) (history s));
      [|assumption|assumption].
    intros snap (g' & Hk' & Htext' & ->).
    apply Forall_mapJob; [|assumption].
    intros a Ha. apply (fixedError_update a); [apply Htext' | assumption].
  - apply Hu.
  - apply Hu.
  - rewrite Hg. apply Forall_mapJob; [|assumption].
    intros a _. exact (Herr a).
Qed.

(** ** The loop of [onDrop] *)

Lemma pendingJobs_pending files : Forall isPending (map pendingJob files).
Proof. apply Forall_map. apply Forall_forall. intros f _. reflexivity. Qed.

Lemma batch_spec faults latency fmt snap todo :
  forall done s,
    uploadedFiles s = (done ++ map pendingJob todo)%list ->
    Inv s -> Forall terminal done ->
    fst (for_of (map pendingJob todo) (convertVideo faults latency fmt snap) s)
    = Return tt /\
    batch_post fmt todo done s
      (snd (for_of (map pendingJob todo)
              (convertVideo faults latency fmt snap) s)).
Proof.
  induction todo as [|f rest IH]; intros done s Hjobs Hinv Hdone.
  - simpl. split; [reflexivity|]. constructor; try reflexivity;
      try apply Extends_same; try assumption.
    + exists []. simpl in Hjobs. rewrite Hjobs. repeat split; constructor.
    + intros h Hh. split; [assumption | reflexivity].
  - cbn [map for_of]. unfold bind.
    destruct (convertVideo_spec faults latency fmt snap (pendingJob f) s)
      as [Hret Hpost].
    destruct (convertVideo faults latency fmt snap (pendingJob f) s)
      as [c1 s1]. simpl in Hret, Hpost. subst c1.
    assert (Hinv1 : Inv s1) by (apply (convertVideo_post_Inv _ _ _ _ Hinv Hpost)).
    destruct Hpost as [Hj Hh Hc Hf Hn Hr Hd He].
    destruct Hj as (g & Hg & Hk & Hterm & Herr & Htext & Hurl).
    assert (Hnd : NoDup (map refOf (done ++ pendingJob f :: map pendingJob rest)%list)).
    { cbn [map] in Hjobs. rewrite <- Hjobs. apply (i_refs _ Hinv). }
    cbn [map] in Hjobs.
    assert (Hjobs1 : uploadedFiles s1
                     = ((done ++ [g (pendingJob f)]) ++ map pendingJob rest)%list).
    { rewrite Hg, Hjobs, mapJob_at by assumption.
      rewrite <- app_assoc. reflexivity. }
    assert (Hdone1 : Forall terminal (done ++ [g (pendingJob f)])%list).
    { apply Forall_app. split; [assumption|]. constructor; [apply Hterm | constructor]. }
    destruct (IH (done ++ [g (pendingJob f)])%list s1 Hjobs1 Hinv1 Hdone1)
      as [Hret2 Hpost2].
    split; [assumption|].
    destruct Hpost2 as [Hinv2 Hj2 Hh2 Hc2 Hf2 Hn2 Hr2 Hd2 He2].
    constructor; try congruence.
    + destruct Hj2 as (done' & Hd' & Ht' & Hfx' & Hfiles').
      exists (g (pendingJob f) :: done'). split; [|split; [|split]].
      * rewrite Hd', <- app_assoc. reflexivity.
      * constructor; [apply Hterm | assumption].
      * constructor; [exact (Herr (pendingJob f)) | assumption].
      * cbn [map]. rewrite Hk, Hfiles'. reflexivity.
    + apply Extends_trans with (l2 := history s1); [|assumption].
      apply Extends_weaken with (P := touchesOnly (pendingJob f) (uploadedFiles s));
        [|assumption].
      intros sn (g' & Hk' & _ & Hsn). rewrite Hsn, Hjobs, mapJob_at by assumption.
      exists done, (g' (pendingJob f) :: map pendingJob rest).
      split; [reflexivity|]. split; [assumption | apply pendingJobs_pending].
    + apply Extends_trans with (l2 := engineCalls s1).
      * apply Extends_weaken with (P := callOf fmt (pendingJob f) s); [|assumption].
        intros c Hcall. destruct c; simpl in *; auto.
        destruct Hcall as (t1 & t2 & ->). exists (pendingJob f), t1, t2.
        split; [left; reflexivity | reflexivity].
      * apply Extends_weaken with (P := batchCall fmt rest s1); [|assumption].
        intros c Hcall. destruct c; simpl in *; auto.
        -- destruct (ffmpegRef s) as [h|] eqn:E; [|reflexivity].
           destruct (He h eq_refl) as [E1 _]. congruence.
        -- destruct Hcall as (fc & t1 & t2 & Hin & ->). exists fc, t1, t2.
           split; [right; assumption | reflexivity].
    + intros h Hh0. destruct (He h Hh0) as [E1 E2].
      destruct (He2 h E1) as [E3 E4]. split; congruence.
Qed.

(** ** A whole drop *)

Lemma slice0_available {A : Type} (files : list A) (count : nat) :
  count <= 5 ->
  JS.slice0 files (5 - Z.of_nat count)%Z = firstn (5 - count) files.
Proof.
  intros Hle. unfold JS.slice0.
  destruct (Z.ltb_spec (5 - Z.of_nat count) 0) as [Hneg|Hpos]; [lia|].
  f_equal. lia.
Qed.

Lemma browserFiles_refs next names :
  map ref (browserFiles next names) = seq next (length names).
Proof.
  revert next. induction names as [|n rest IH]; intros next; [reflexivity|].
  simpl. rewrite IH. reflexivity.
Qed.

Lemma browserFiles_names next names : map name (browserFiles next names) = names.
Proof.
  revert next. induction names as [|n rest IH]; intros next; [reflexivity|].
  simpl. rewrite IH. reflexivity.
Qed.

Lemma browserFiles_length next names :
  length (browserFiles next names) = length names.
Proof. rewrite <- (length_map ref), browserFiles_refs. apply length_seq. Qed.

Lemma browserFiles_firstn next names k :
  firstn k (browserFiles next names) = browserFiles next (firstn k names).
Proof.
  revert next k. induction names as [|n rest IH]; intros next [|k];
    try reflexivity.
  simpl. rewrite IH. reflexivity.
Qed.

Lemma refOf_pendingJob files : map refOf (map pendingJob files) = map ref files.
Proof. rewrite map_map. reflexivity. Qed.

Lemma dropFiles_unfold faults latency names s :
  length (uploadedFiles s) <= 5 ->
  dropFiles faults latency names s
  = snd (for_of (map pendingJob (enqueued names s))
           (convertVideo faults latency (outputFormat s) (uploadedFiles s))
           (enqueue names s)).
Proof.
  intros Hcap. unfold dropFiles, onDrop, bind, act.
  rewrite (slice0_available _ _ Hcap), browserFiles_firstn. reflexivity.
Qed.

Lemma enqueue_Inv names s : Inv s -> Inv (enqueue names s).
Proof.
  intros [Hcap Hrefs Hfresh Herrs Hhist Hurls Hcr Hfail].
  assert (Hlen : length (enqueued names s) <= 5 - length (uploadedFiles s)).
  { unfold enqueued. rewrite browserFiles_length. apply firstn_le_length. }
  assert (Hnew : forall r, In r (map ref (enqueued names s)) ->
                           nextFile s <= r < nextFile s + length names).
  { intros r Hin. unfold enqueued in Hin. rewrite browserFiles_refs in Hin.
    apply in_seq in Hin.
    assert (length (firstn (5 - length (uploadedFiles s)) names) <= length names)
      by (rewrite length_firstn; lia).
    lia. }
  assert (Herr' : Forall fixedError
                    (uploadedFiles s ++ map pendingJob (enqueued names s))%list).
  { apply Forall_app. split; [assumption|].
    apply Forall_map. apply Forall_forall. intros f _. left. reflexivity. }
  unfold enqueue. constructor; simpl.
  - rewrite length_app, length_map. lia.
  - rewrite map_app, refOf_pendingJob.
    apply NoDup_app; [assumption| |].
    + unfold enqueued. rewrite browserFiles_refs. apply seq_NoDup.
    + intros r Hold Hin. apply Hnew in Hin.
      apply in_map_iff in Hold. destruct Hold as (fc & <- & Hfc).
      rewrite Forall_forall in Hfresh. specialize (Hfresh fc Hfc). lia.
  - apply Forall_app. split.
    + apply Forall_impl with (P := fun fc => refOf fc < nextFile s); [|assumption].
      intros fc Hlt. lia.
    + apply Forall_map. apply Forall_forall. intros f Hin.
      unfold refOf. simpl.
      assert (Hr : In (ref f) (map ref (enqueued names s))) by (apply in_map; assumption).
      apply Hnew in Hr. lia.
  - assumption.
  - constructor; assumption.
  - rewrite heldUrls_app, heldUrls_pending, app_nil_r. assumption.
  - rewrite heldUrls_app, heldUrls_pending, app_nil_r. assumption.
  - apply Forall_app. split; [assumption|].
    apply Forall_map. apply Forall_forall. intros f _ Habs. discriminate Habs.
Qed.

Lemma dropFiles_spec faults latency names s :
  Quiet s -> drop_post names s (dropFiles faults latency names s).
Proof.
  intros [Hinv Hterm].
  rewrite (dropFiles_unfold _ _ _ _ (i_cap _ Hinv)).
  destruct (batch_spec faults latency (outputFormat s) (uploadedFiles s)
              (enqueued names s) (uploadedFiles s) (enqueue names s)
              eq_refl (enqueue_Inv names s Hinv) Hterm) as [_ Hpost].
  destruct Hpost as [Hinv' Hj Hh Hc Hf Hn Hr Hd He].
  constructor; try assumption.
  - split; [assumption|]. destruct Hj as (done' & -> & Ht & _).
    apply Forall_app. split; assumption.
  - apply Extends_app in Hh. destruct Hh as (later & Heq & Hall).
    exists later. split; assumption.
Qed.

(** ** Reset, download and format selection *)

Lemma set_revoked_same s : set_revoked (revoked s) s = s.
Proof. destruct s; reflexivity. Qed.

Lemma revokeAll_spec l s :
  revokeAll l s = set_revoked (revoked s ++ heldUrls l)%list s.
Proof.
  revert s. induction l as [|fc l IH]; intros s.
  - simpl. rewrite app_nil_r, set_revoked_same. reflexivity.
  - unfold revokeAll in *. cbn [fold_left]. rewrite IH.
    unfold heldUrls. cbn [flat_map].
    destruct (FileConversion.downloadUrl fc) as [url|]; [|reflexivity].
    destruct (JS.truthy (Some url)); [|reflexivity].
    unfold URL_revokeObjectURL. cbn [revoked set_revoked].
    rewrite <- app_assoc. reflexivity.
Qed.

Lemma resetConverter_Inv s : Inv s -> Inv (resetConverter s).
Proof.
  intros [Hcap Hrefs Hfresh Herrs Hhist Hurls Hcr Hfail].
  unfold resetConverter. rewrite revokeAll_spec.
  constructor; simpl; try (constructor; fail).
  - lia.
  - repeat constructor. assumption.
  - apply (Permutation_NoDup (Permutation_app_comm _ _)). assumption.
  - apply (Permutation_Forall (Permutation_app_comm _ _)). assumption.
Qed.

Lemma downloadVideo_Inv fmt fc s : Inv s -> Inv (downloadVideo fmt fc s).
Proof.
  intros H. unfold downloadVideo.
  destruct (FileConversion.downloadUrl fc); [|assumption].
  destruct (JS.truthy _); [|assumption].
  destruct H. constructor; assumption.
Qed.

Lemma setOutputFormat_Inv v s : Inv s -> Inv (setOutputFormat v s).
Proof. intros []. constructor; assumption. Qed.

Lemma step_Quiet faults latency s a :
  Quiet s -> Quiet (step faults latency s a).
Proof.
  intros Hq. destruct a as [names|i|i|]; simpl.
  - destruct (_ && _); [|assumption].
    apply (dp_quiet _ _ _ (dropFiles_spec faults latency names s Hq)).
  - destruct (nth_error OUTPUT_FORMATS i); [|assumption].
    destruct (busy s); [assumption|].
    destruct Hq as [Hinv Ht]. split; [apply setOutputFormat_Inv|]; assumption.
  - destruct (nth_error (uploadedFiles s) i) as [fc|]; [|assumption].
    destruct (Status.eqb _ _); [|assumption].
    destruct Hq as [Hinv Ht]. split; [apply downloadVideo_Inv; assumption|].
    unfold downloadVideo.
    destruct (FileConversion.downloadUrl fc); [|assumption].
    destruct (JS.truthy _); assumption.
  - destruct (uploadedFiles s) eqn:E; [assumption|].
    destruct Hq as [Hinv Ht]. split; [apply resetConverter_Inv; assumption|].
    constructor.
Qed.

Lemma initial_Quiet : Quiet initial.
Proof. split; [constructor; simpl; try constructor; lia | constructor]. Qed.

Lemma fold_step_Quiet faults latency acts s :
  Quiet s -> Quiet (fold_left (step faults latency) acts s).
Proof.
  revert s. induction acts as [|a acts IH]; intros s Hq; [assumption|].
  simpl. apply IH. apply step_Quiet. assumption.
Qed.

(** Every state the user can reach is quiet: whenever the component waits
    for the next action, its invariants hold and every job is finished. *)
Lemma run_Quiet faults latency acts : Quiet (run faults latency acts).
Proof. apply fold_step_Quiet. apply initial_Quiet. Qed.

Lemma Extends_since (P : Snapshot -> Prop) s s' added :
  history s' = (added ++ history s)%list -> since s s' = added.
Proof.
  intros H. unfold since. rewrite H, length_app.
  replace (length added + length (history s) - length (history s))
    with (length added) by lia.
  rewrite firstn_app, firstn_all, Nat.sub_diag. simpl. apply app_nil_r.
Qed.

Lemma Extends_callsSince (P : EngineCall -> Prop) s s' :
  Extends P (engineCalls s) (engineCalls s') -> Forall P (callsSince s s').
Proof.
  intros H. apply Extends_app in H. destruct H as (added & Heq & Hall).
  unfold callsSince. rewrite Heq, length_app.
  replace (length added + length (engineCalls s) - length (engineCalls s))
    with (length added) by lia.
  rewrite firstn_app, firstn_all, Nat.sub_diag. simpl. rewrite app_nil_r.
  assumption.
Qed.

Lemma orderedJobs_index l :
  orderedJobs l ->
  forall i j a b,
    i < j -> nth_error l i = Some a -> nth_error l j = Some b ->
    FileConversion.status b <> Status.pending -> terminal a.
Proof.
  intros (T & P & -> & HT & HP) i j a b Hij Ha Hb Hnp.
  destruct (Nat.lt_ge_cases i (length T)) as [Hi|Hi].
  - rewrite nth_error_app1 in Ha by assumption.
    rewrite Forall_forall in HT. apply HT. apply (nth_error_In _ _ Ha).
  - exfalso. rewrite nth_error_app2 in Hb by lia.
    destruct P as [|p P']; [destruct (j - length T); discriminate|].
    destruct (j - length T) as [|k] eqn:E; [lia|].
    simpl in Hb, HP. rewrite Forall_forall in HP.
    apply Hnp. apply HP. apply (nth_error_In _ _ Hb).
Qed.

(** ** The command line *)

Lemma buildArgs_gif inputName outputName :
  buildArgs "gif" inputName outputName
  = ["-i"; inputName; "-c"; "+faststart"; outputName].
Proof. reflexivity. Qed.

Lemma buildArgs_video fmt inputName outputName :
  String.eqb fmt "gif" = false ->
  buildArgs fmt inputName outputName
  = ["-i"; inputName; "-c"; "copy"; "-movflags"; "+faststart"; outputName].
Proof. intros H. unfold buildArgs. rewrite H. reflexivity. Qed.

Lemma inputNameAt_head t fc : exists rest, inputNameAt t fc = String "i" rest.
Proof. unfold inputNameAt. simpl. eexists. reflexivity. Qed.

Lemma outputNameAt_head t fmt : exists rest, outputNameAt t fmt = String "o" rest.
Proof. unfold outputNameAt. simpl. eexists. reflexivity. Qed.

Lemma exec_of_convertVideo faults latency fmt snap fc s args :
  In (Exec args) (callsSince s (snd (convertVideo faults latency fmt snap fc s))) ->
  exists t1 t2, args = buildArgs fmt (inputNameAt t1 fc) (outputNameAt t2 fmt).
Proof.
  intros Hin.
  destruct (convertVideo_spec faults latency fmt snap fc s) as [_ Hpost].
  pose proof (Extends_callsSince _ _ _ (cv_calls _ _ _ _ Hpost)) as Hall.
  rewrite Forall_forall in Hall. exact (Hall _ Hin).
Qed.

(** ** The two forms of the component *)

Lemma bind_ext {A B : Type} (m1 m2 : Async A) (k1 k2 : A -> Async B) :
  (forall s, m1 s = m2 s) -> (forall a s, k1 a s = k2 a s) ->
  forall s, bind m1 k1 s = bind m2 k2 s.
Proof.
  intros Hm Hk s. unfold bind. rewrite Hm.
  destruct (m2 s) as [[a|e] s1]; [apply Hk | reflexivity].
Qed.

Lemma try_catch_ext {A : Type} (m1 m2 : Async A) (h1 h2 : string -> Async A) :
  (forall s, m1 s = m2 s) -> (forall e s, h1 e s = h2 e s) ->
  forall s, try_catch m1 h1 s = try_catch m2 h2 s.
Proof.
  intros Hm Hh s. unfold try_catch. rewrite Hm.
  destruct (m2 s) as [[a|e] s1]; [reflexivity | apply Hh].
Qed.

Lemma for_of_ext {A : Type} (f g : A -> Async unit) :
  (forall x s, f x s = g x s) ->
  forall xs s, for_of xs f s = for_of xs g s.
Proof.
  intros H xs. induction xs as [|x rest IH]; intros s; [reflexivity|].
  cbn [for_of]. apply bind_ext; [apply H | intros _; apply IH].
Qed.

(** Without clicks during the engine calls the interleaved component is the
    component whose drops run to their end. *)
Section Agreement.

Variable faults : nat -> option string.
Variable latency : nat -> nat.
Variable clicks : nat -> list Click.
Hypothesis quiet : forall k, clicks k = [].

Lemma agree_engine c possible effect s :
  Interleaved.engine faults latency clicks c possible effect s
  = engine faults latency c possible effect s.
Proof. unfold Interleaved.engine, engine. rewrite quiet. reflexivity. Qed.

Ltac agree :=
  repeat first
    [ intros ?s; apply agree_engine
    | cbv beta zeta; apply bind_ext; [ | intros ? ]
    | cbv beta zeta; apply try_catch_ext; [ | intros ? ]
    | intros ?s; reflexivity ].

Lemma agree_initializeFFmpeg s :
  Interleaved.initializeFFmpeg faults latency clicks s
  = initializeFFmpeg faults latency s.
Proof.
  revert s. unfold Interleaved.initializeFFmpeg, initializeFFmpeg,
    Interleaved.FFmpeg_load, FFmpeg_load.
  apply bind_ext; [reflexivity|]. intros [h|]; agree.
Qed.

Lemma agree_convertVideo_try fmt snap fc s :
  Interleaved.convertVideo_try faults latency clicks fmt snap fc s
  = convertVideo_try faults latency fmt snap fc s.
Proof.
  revert s. unfold Interleaved.convertVideo_try, convertVideo_try,
    Interleaved.fetchFile, fetchFile,
    Interleaved.FFmpeg_writeFile, FFmpeg_writeFile,
    Interleaved.FFmpeg_exec, FFmpeg_exec,
    Interleaved.FFmpeg_readFile, FFmpeg_readFile,
    Interleaved.FFmpeg_deleteFile, FFmpeg_deleteFile.
  apply bind_ext; [apply agree_initializeFFmpeg | intros ffmpeg]. agree.
Qed.

Lemma agree_convertVideo fmt snap fc s :
  Interleaved.convertVideo faults latency clicks fmt snap fc s
  = convertVideo faults latency fmt snap fc s.
Proof.
  revert s. unfold Interleaved.convertVideo, convertVideo.
  apply try_catch_ext; [apply agree_convertVideo_try | reflexivity].
Qed.

Lemma agree_onDrop fmt snap files s :
  Interleaved.onDrop faults latency clicks fmt snap files s
  = onDrop faults latency fmt snap files s.
Proof.
  revert s. unfold Interleaved.onDrop, onDrop. cbv zeta.
  apply bind_ext; [reflexivity | intros _].
  apply for_of_ext. intros fc s. apply agree_convertVideo.
Qed.

Lemma agree_dropFiles names s :
  Interleaved.dropFiles faults latency clicks names s
  = dropFiles faults latency names s.
Proof. unfold Interleaved.dropFiles, dropFiles. rewrite agree_onDrop. reflexivity. Qed.

Lemma agree_step s a :
  Interleaved.step faults latency clicks s a = step faults latency s a.
Proof.
  destruct a; try reflexivity.
  cbn [Interleaved.step step]. rewrite agree_dropFiles. reflexivity.
Qed.

Lemma agree_fold acts s :
  fold_left (Interleaved.step faults latency clicks) acts s
  = fold_left (step faults latency) acts s.
Proof.
  revert s. induction acts as [|a acts IH]; intros s; [reflexivity|].
  cbn [fold_left]. rewrite agree_step. apply IH.
Qed.

Lemma agree_run acts :
  Interleaved.run faults latency clicks acts = run faults latency acts.
Proof. apply agree_fold. Qed.

End Agreement.

(** * The properties of the specification, one by one *)

(** C7.  The command of a conversion is built by a two-way branch on the
    target format.  Every command [convertVideo] passes to the engine for a
    format other than gif is [-i input -c copy -movflags +faststart output]:
    it has the stream-copy option and the faststart flag.  Every command it
    passes for gif has no [copy] argument. *)
Theorem stream_copy_unless_gif faults latency fmt snap fc s args :
  In (Exec args)
     (callsSince s (snd (convertVideo faults latency fmt snap fc s))) ->
  if String.eqb fmt "gif"
  then ~ In "copy" args
  else exists inputName outputName,
         args = ["-i"; inputName; "-c"; "copy";
                 "-movflags"; "+faststart"; outputName].
Proof.
  intros Hin. apply exec_of_convertVideo in Hin.
  destruct Hin as (t1 & t2 & ->).
  destruct (String.eqb fmt "gif") eqn:E.
  - apply String.eqb_eq in E. subst fmt. rewrite buildArgs_gif.
    destruct (inputNameAt_head t1 fc) as [r1 ->].
    destruct (outputNameAt_head t2 "gif") as [r2 ->].
    simpl. intros [H|[H|[H|[H|[H|[]]]]]]; discriminate H.
  - rewrite (buildArgs_video _ _ _ E). eexists. eexists. reflexivity.
Qed.

(** A conversion to webm on the initial state issues such a command. *)
Lemma stream_copy_unless_gif_witness :
  In (Exec ["-i"; "input_1.mkv"; "-c"; "copy"; "-movflags"; "+faststart";
            "output_3.webm"])
     (callsSince initial
        (snd (convertVideo noFaults unitLatency "webm" []
                (pendingJob (Build_File 0 "a.mkv")) initial))) /\
  exists inputName outputName,
    ["-i"; "input_1.mkv"; "-c"; "copy"; "-movflags"; "+faststart";
     "output_3.webm"]
    = ["-i"; inputName; "-c"; "copy"; "-movflags"; "+faststart"; outputName].
Proof.
  assert (H : In (Exec ["-i"; "input_1.mkv"; "-c"; "copy"; "-movflags";
                        "+faststart"; "output_3.webm"])
                 (callsSince initial
                    (snd (convertVideo noFaults unitLatency "webm" []
                            (pendingJob (Build_File 0 "a.mkv")) initial)))).
  { vm_compute. right. right. right. left. reflexivity. }
  split; [exact H|].
  exact (stream_copy_unless_gif noFaults unitLatency "webm" []
           (pendingJob (Build_File 0 "a.mkv")) initial _ H).
Defined.

(** C10.  For the gif target format the command [convertVideo] passes to
    the engine is exactly [-i input -c +faststart output]: the splice
    removed the codec value and the [-movflags] option name, so [-c] is
    still there, followed by [+faststart]. *)
Theorem gif_command_keeps_codec_option faults latency snap fc s args :
  In (Exec args)
     (callsSince s (snd (convertVideo faults latency "gif" snap fc s))) ->
  exists t1 t2,
    args = ["-i"; inputNameAt t1 fc; "-c"; "+faststart"; outputNameAt t2 "gif"] /\
    nth_error args 2 = Some "-c" /\
    nth_error args 3 = Some "+faststart" /\
    ~ In "-movflags" args.
Proof.
  intros Hin. apply exec_of_convertVideo in Hin.
  destruct Hin as (t1 & t2 & ->). rewrite buildArgs_gif.
  exists t1, t2. repeat split.
  destruct (inputNameAt_head t1 fc) as [r1 ->].
  destruct (outputNameAt_head t2 "gif") as [r2 ->].
  simpl. intros [H|[H|[H|[H|[H|[]]]]]]; discriminate H.
Qed.

(** A conversion to gif on the initial state issues such a command. *)
Lemma gif_command_keeps_codec_option_witness :
  In (Exec ["-i"; "input_1.mkv"; "-c"; "+faststart"; "output_3.gif"])
     (callsSince initial
        (snd (convertVideo noFaults unitLatency "gif" []
                (pendingJob (Build_File 0 "a.mkv")) initial))) /\
  exists t1 t2,
    ["-i"; "input_1.mkv"; "-c"; "+faststart"; "output_3.gif"]
    = ["-i"; inputNameAt t1 (pendingJob (Build_File 0 "a.mkv")); "-c";
       "+faststart"; outputNameAt t2 "gif"] /\
    nth_error ["-i"; "input_1.mkv"; "-c"; "+faststart"; "output_3.gif"] 2
    = Some "-c" /\
    nth_error ["-i"; "input_1.mkv"; "-c"; "+faststart"; "output_3.gif"] 3
    = Some "+faststart" /\
    ~ In "-movflags" ["-i"; "input_1.mkv"; "-c"; "+faststart"; "output_3.gif"].
Proof.
  assert (H : In (Exec ["-i"; "input_1.mkv"; "-c"; "+faststart"; "output_3.gif"])
                 (callsSince initial
                    (snd (convertVideo noFaults unitLatency "gif" []
                            (pendingJob (Build_File 0 "a.mkv")) initial)))).
  { vm_compute. right. right. right. left. reflexivity. }
  split; [exact H|].
  exact (gif_command_keeps_codec_option noFaults unitLatency []
           (pendingJob (Build_File 0 "a.mkv")) initial _ H).
Defined.

(** C1.  The conversion of a job uses the format selected when the job was
    submitted, but its download name does not: job A is submitted and
    converted as mp4 (engine output [output_3.mp4], MIME type [video/mp4]),
    the selection changes to webm, job B is submitted; the Download button
    of job A then names the file [a.webm]. *)
Theorem download_name_follows_live_selection :
  let s := run noFaults unitLatency
             [Drop ["a.mkv"]; SelectFormat 1; Drop ["b.mkv"];
              ClickDownload 0; ClickDownload 1] in
  execs s
  = [["-i"; "input_1.mkv"; "-c"; "copy"; "-movflags"; "+faststart"; "output_3.mp4"];
     ["-i"; "input_7.mkv"; "-c"; "copy"; "-movflags"; "+faststart"; "output_9.webm"]] /\
  rev (objectUrls s) = [("blob:0", "video/mp4"); ("blob:1", "video/webm")] /\
  rev (downloads s) = [("blob:0", "a.webm"); ("blob:1", "b.webm")].
Proof. vm_compute. repeat split. Qed.

(** C2.  One file is dropped on the empty component and the user clicks
    Clear All Files while the exec call of its conversion (call number 3)
    is pending.  The click empties the job list and sets the phase idle;
    the conversion then goes on, its update of the job finds no job to
    update, and at its end the check over the job list the closure captured
    before the drop (the empty list) sets the phase completed.  The
    component is left with the phase completed and no job at all, so none
    that is completed; the object URL the conversion created is held by no
    job and is not revoked. *)
Theorem completed_phase_without_completed_job :
  let s := Interleaved.run noFaults unitLatency (clickDuring 3 ClearAllFiles)
             [Drop ["a.mkv"]] in
  uploadedFiles s = [] /\
  conversionState s
  = ConversionProgress.Build_t Phase.completed "All conversions completed!"
      (Some 100) /\
  rev (engineCalls s)
  = [ Load; FetchFile (Build_File 0 "a.mkv"); WriteFile "input_1.mkv";
      Exec ["-i"; "input_1.mkv"; "-c"; "copy"; "-movflags"; "+faststart";
            "output_3.mp4"];
      ReadFile "output_3.mp4"; DeleteFile "input_1.mkv";
      DeleteFile "output_3.mp4" ] /\
  rev (objectUrls s) = [("blob:0", "video/mp4")] /\
  revoked s = [].
Proof. vm_compute. repeat split. Qed.

(** C3.  The engine rejects the exec call of a conversion (its call
    number 3).  The conversion returns with the job failed and with the
    input entry it wrote still in the engine's file system: the [catch]
    block deletes nothing. *)
Theorem failed_conversion_leaves_input_entry :
  let s := run (faultAt 3 "exec: unsupported codec") unitLatency
             [Drop ["a.mkv"]] in
  rev (engineCalls s)
  = [ Load; FetchFile (Build_File 0 "a.mkv"); WriteFile "input_1.mkv";
      Exec ["-i"; "input_1.mkv"; "-c"; "copy"; "-movflags"; "+faststart";
            "output_3.mp4"] ] /\
  showJobs s = [("a.mkv", Status.error, None, Some "Conversion failed")] /\
  fs s = ["input_1.mkv"].
Proof. vm_compute. repeat split. Qed.

(** C4.  The engine rejects the first clean-up call of a conversion (its
    call number 5), after the job was marked completed.  The job goes from
    completed to failed and ends with both its download URL and its error
    text set. *)
Theorem cleanup_failure_sets_both_fields :
  let s := run (faultAt 5 "unlink failed") unitLatency [Drop ["a.mkv"]] in
  map fst (statusTrace s)
  = [ [Status.pending]; [Status.pending]; [Status.converting];
      [Status.converting]; [Status.completed]; [Status.error] ] /\
  showJobs s
  = [("a.mkv", Status.error, Some "blob:0", Some "Conversion failed")].
Proof. vm_compute. repeat split. Qed.

(** ** Failures *)





(** ** Capacity *)

Lemma firstn_min {A : Type} (l : list A) k :
  firstn k l = firstn (Nat.min (length l) k) l.
Proof.
  destruct (Nat.le_ge_cases (length l) k) as [H|H].
  - rewrite Nat.min_l by assumption. rewrite !firstn_all2; auto.
  - rewrite Nat.min_r by assumption. reflexivity.
Qed.

Lemma browserFiles_skipn_refs next names k f :
  In f (skipn k (browserFiles next names)) -> next + k <= ref f.
Proof.
  intros Hin. apply (in_map ref) in Hin.
  rewrite <- skipn_map, browserFiles_refs, skipn_seq in Hin.
  apply in_seq in Hin. lia.
Qed.

(** C6.  In every state the user can reach at most 5 jobs are tracked.  A
    drop of [k] files on [n] tracked jobs creates [min k (5 - n)] pending
    jobs, for the first files of the drop and appended in their order; the
    other dropped files are in no job record, and the engine is never asked
    to fetch them. *)
Theorem queue_never_exceeds_five faults latency acts names :
  let s := run faults latency acts in
  let s' := dropFiles faults latency names s in
  let n := length (uploadedFiles s) in
  let m := Nat.min (length names) (5 - n) in
  let dropped := browserFiles (nextFile s) names in
  n <= 5 /\
  length (uploadedFiles s') = n + m /\
  length (uploadedFiles s') <= 5 /\
  nth_error (rev (since s s')) 0
  = Some ((uploadedFiles s ++ map pendingJob (firstn m dropped))%list, phaseOf s) /\
  map FileConversion.file (uploadedFiles s')
  = (map FileConversion.file (uploadedFiles s) ++ firstn m dropped)%list /\
  Forall (fun f => ~ In f (map FileConversion.file (uploadedFiles s')))
         (skipn m dropped) /\
  Forall (fun c => match c with
                   | FetchFile f => In f (firstn m dropped)
                   | _ => True
                   end) (callsSince s s').
Proof.
  intros s s' n m dropped.
  pose proof (run_Quiet faults latency acts) as Hq. fold s in Hq.
  pose proof (dropFiles_spec faults latency names s Hq) as Hpost. fold s' in Hpost.
  destruct Hq as [Hinv Hterm].
  assert (Hcap : n <= 5) by apply (i_cap _ Hinv).
  assert (Henq : enqueued names s = firstn m dropped).
  { unfold enqueued, dropped, m. fold n.
    rewrite browserFiles_firstn. f_equal. apply firstn_min. }
  assert (Hm : length (firstn m dropped) = m).
  { rewrite length_firstn. unfold dropped. rewrite browserFiles_length.
    unfold m. lia. }
  destruct (dp_jobs _ _ _ Hpost) as (done' & Hj & _ & _ & Hfiles).
  assert (Hmap : map FileConversion.file (uploadedFiles s')
                 = (map FileConversion.file (uploadedFiles s)
                    ++ firstn m dropped)%list).
  { rewrite Hj, map_app, Hfiles, Henq. reflexivity. }
  assert (Hlen : length (uploadedFiles s') = n + m).
  { rewrite <- (length_map FileConversion.file), Hmap, length_app, length_map, Hm.
    reflexivity. }
  split; [assumption|]. split; [assumption|].
  split; [unfold m in Hlen |- *; lia|].
  split; [|split; [assumption|split]].
  - destruct (dp_history _ _ _ Hpost) as (later & Hh & _).
    change ((later ++ (uploadedFiles s ++ map pendingJob (enqueued names s),
                       phaseOf s) :: history s)%list)
      with ((later ++ [(uploadedFiles s ++ map pendingJob (enqueued names s),
                        phaseOf s)] ++ history s)%list) in Hh.
    rewrite app_assoc in Hh.
    rewrite (Extends_since (fun _ => True) _ _ _ Hh), rev_app_distr, Henq.
    reflexivity.
  - apply Forall_forall. intros f Hf Hin. rewrite Hmap in Hin.
    apply browserFiles_skipn_refs in Hf.
    apply in_app_or in Hin. destruct Hin as [Hin|Hin].
    + apply in_map_iff in Hin. destruct Hin as (fc & <- & Hfc).
      pose proof (i_fresh _ Hinv) as Hfresh. rewrite Forall_forall in Hfresh.
      specialize (Hfresh fc Hfc). unfold refOf in Hfresh. lia.
    + apply (in_map ref) in Hin. unfold dropped in Hin.
      rewrite browserFiles_firstn, browserFiles_refs in Hin.
      apply in_seq in Hin. rewrite length_firstn in Hin. unfold m in Hf. lia.
  - pose proof (Extends_callsSince _ _ _ (dp_calls _ _ _ Hpost)) as Hcalls.
    apply Forall_impl with (2 := Hcalls).
    intros c Hc. destruct c; simpl in *; auto. rewrite <- Henq. assumption.
Qed.

(** ** Order of processing *)

Lemma processedInOrder_oneAtATime jobs :
  processedInOrder jobs -> oneAtATime jobs.
Proof.
  intros H i j a b Hij Ha Hb Hca Hcb.
  assert (Ht : terminal a).
  { apply (H i j a b Hij Ha Hb). rewrite Hcb. discriminate. }
  unfold terminal in Ht. rewrite Hca in Ht. discriminate Ht.
Qed.

(** C8.  The jobs of a batch are processed one at a time and in the order
    of submission: in every job list the component shows from the drop on,
    a job has left pending only if every job in front of it is finished (so
    the jobs also finish in that order), at most one job is converting, and
    when the drop is over every job is finished. *)
Theorem jobs_processed_in_submission_order faults latency acts names :
  let s := run faults latency acts in
  let s' := dropFiles faults latency names s in
  Forall (fun snap => processedInOrder (fst snap) /\ oneAtATime (fst snap))
         (since s s') /\
  Forall terminal (uploadedFiles s') /\
  map FileConversion.file (uploadedFiles s')
  = (map FileConversion.file (uploadedFiles s) ++ enqueued names s)%list.
Proof.
  intros s s'.
  pose proof (run_Quiet faults latency acts) as Hq. fold s in Hq.
  pose proof (dropFiles_spec faults latency names s Hq) as Hpost. fold s' in Hpost.
  destruct Hq as [Hinv Hterm].
  split; [|split].
  - destruct (dp_history _ _ _ Hpost) as (later & Hh & Hall).
    change ((later ++ (uploadedFiles s ++ map pendingJob (enqueued names s),
                       phaseOf s) :: history s)%list)
      with ((later ++ [(uploadedFiles s ++ map pendingJob (enqueued names s),
                        phaseOf s)] ++ history s)%list) in Hh.
    rewrite app_assoc in Hh.
    rewrite (Extends_since (fun _ => True) _ _ _ Hh).
    assert (Hord : Forall (fun snap => orderedJobs (fst snap))
                     (later ++ [(uploadedFiles s
                                 ++ map pendingJob (enqueued names s),
                                 phaseOf s)])%list).
    { apply Forall_app. split; [assumption|]. constructor; [|constructor].
      exists (uploadedFiles s), (map pendingJob (enqueued names s)).
      split; [reflexivity|]. split; [assumption|].
      destruct (enqueued names s) as [|f rest]; [constructor|].
      simpl. apply pendingJobs_pending. }
    apply Forall_impl with (2 := Hord). intros snap Ho.
    pose proof (orderedJobs_index _ Ho) as Hi.
    split; [exact Hi | apply processedInOrder_oneAtATime; exact Hi].
  - apply (dp_quiet _ _ _ Hpost).
  - destruct (dp_jobs _ _ _ Hpost) as (done' & Hj & _ & _ & Hfiles).
    rewrite Hj, map_app, Hfiles. reflexivity.
Qed.

(** The job lists of a drop of two files, the first of which fails. *)
Lemma jobs_processed_in_submission_order_witness :
  map (fun snap => map FileConversion.status (fst snap))
      (rev (since (run (faultAt 3 "exec: unsupported codec") unitLatency [])
              (dropFiles (faultAt 3 "exec: unsupported codec") unitLatency
                 ["a.mkv"; "b.mkv"]
                 (run (faultAt 3 "exec: unsupported codec") unitLatency []))))
  = [ [Status.pending; Status.pending]; [Status.pending; Status.pending];
      [Status.converting; Status.pending]; [Status.converting; Status.pending];
      [Status.error; Status.pending]; [Status.error; Status.converting];
      [Status.error; Status.converting]; [Status.error; Status.completed];
      [Status.error; Status.completed] ] /\
  Forall (fun snap => processedInOrder (fst snap) /\ oneAtATime (fst snap))
         (since (run (faultAt 3 "exec: unsupported codec") unitLatency [])
            (dropFiles (faultAt 3 "exec: unsupported codec") unitLatency
               ["a.mkv"; "b.mkv"]
               (run (faultAt 3 "exec: unsupported codec") unitLatency []))).
Proof.
  split; [vm_compute; reflexivity|].
  exact (proj1 (jobs_processed_in_submission_order
                  (faultAt 3 "exec: unsupported codec") unitLatency []
                  ["a.mkv"; "b.mkv"])).
Defined.

(** Four files dropped on three tracked jobs: two are enqueued. *)
Lemma queue_never_exceeds_five_witness :
  showJobs (dropFiles noFaults unitLatency ["d.mkv"; "e.mkv"; "f.mkv"; "g.mkv"]
              (run noFaults unitLatency [Drop ["a.mkv"; "b.mkv"; "c.mkv"]]))
  = [ ("a.mkv", Status.completed, Some "blob:0", None);
      ("b.mkv", Status.completed, Some "blob:1", None);
      ("c.mkv", Status.completed, Some "blob:2", None);
      ("d.mkv", Status.completed, Some "blob:3", None);
      ("e.mkv", Status.completed, Some "blob:4", None) ] /\
  length (uploadedFiles
            (dropFiles noFaults unitLatency ["d.mkv"; "e.mkv"; "f.mkv"; "g.mkv"]
               (run noFaults unitLatency [Drop ["a.mkv"; "b.mkv"; "c.mkv"]])))
  = length (uploadedFiles
              (run noFaults unitLatency [Drop ["a.mkv"; "b.mkv"; "c.mkv"]]))
    + Nat.min (length ["d.mkv"; "e.mkv"; "f.mkv"; "g.mkv"])
        (5 - length (uploadedFiles
                       (run noFaults unitLatency
                          [Drop ["a.mkv"; "b.mkv"; "c.mkv"]]))).
Proof.
  split; [vm_compute; reflexivity|].
  exact (proj1 (proj2 (queue_never_exceeds_five noFaults unitLatency
                         [Drop ["a.mkv"; "b.mkv"; "c.mkv"]]
                         ["d.mkv"; "e.mkv"; "f.mkv"; "g.mkv"]))).
Defined.

(** ** Reset *)

Lemma resetConverter_fields s :
  let s' := resetConverter s in
  revoked s' = (revoked s ++ heldUrls (uploadedFiles s))%list /\
  uploadedFiles s' = [] /\
  phaseOf s' = Phase.idle /\
  outputFormat s' = outputFormat s /\
  ffmpegRef s' = ffmpegRef s /\
  instances s' = instances s /\
  engineCalls s' = engineCalls s /\
  fs s' = fs s.
Proof.
  unfold resetConverter. rewrite revokeAll_spec. simpl. repeat split.
Qed.

(** C9.  In every state the user can reach, [resetConverter] revokes the
    object URLs the job list holds and nothing else, every one of them has
    been revoked exactly once afterwards, the job list is empty and the
    phase is idle.  The FFmpeg instance is left as it was, no engine call
    is made, and a later drop calls [load] only if no instance had been
    loaded before the reset. *)
Theorem reset_releases_every_url_once faults latency acts :
  let s := run faults latency acts in
  let s' := resetConverter s in
  revoked s' = (revoked s ++ heldUrls (uploadedFiles s))%list /\
  Forall (fun url => count_occ string_dec (revoked s') url = 1)
         (heldUrls (uploadedFiles s)) /\
  uploadedFiles s' = [] /\
  phaseOf s' = Phase.idle /\
  ffmpegRef s' = ffmpegRef s /\
  instances s' = instances s /\
  engineCalls s' = engineCalls s /\
  (forall names,
     Forall (fun c => match c with
                      | Load => ffmpegRef s = None
                      | _ => True
                      end)
            (callsSince s' (dropFiles faults latency names s'))).
Proof.
  intros s s'.
  pose proof (run_Quiet faults latency acts) as Hq. fold s in Hq.
  destruct Hq as [Hinv Hterm].
  destruct (resetConverter_fields s)
    as (Hrev & Hjobs & Hphase & Hfmt & Href & Hinst & Hcalls & Hfs).
  fold s' in Hrev, Hjobs, Hphase, Hfmt, Href, Hinst, Hcalls, Hfs.
  repeat (split; [assumption|]). split.
  - rewrite Hrev. apply Forall_forall. intros url Hin.
    pose proof (i_urls _ Hinv) as Hnd.
    rewrite count_occ_app.
    assert (H0 : count_occ string_dec (revoked s) url = 0).
    { apply count_occ_not_In. intros Hr.
      apply NoDup_app_remove_r in Hnd as Hh.
      rewrite (NoDup_count_occ string_dec) in Hnd.
      specialize (Hnd url). rewrite count_occ_app in Hnd.
      assert (count_occ string_dec (heldUrls (uploadedFiles s)) url > 0)
        by (apply count_occ_In; assumption).
      assert (count_occ string_dec (revoked s) url > 0)
        by (apply count_occ_In; assumption).
      lia. }
    rewrite H0. simpl.
    apply NoDup_app_remove_r in Hnd.
    apply (proj1 (NoDup_count_occ' string_dec _) Hnd). assumption.
  - repeat (split; [assumption|]).
    intros names.
    assert (Hq' : Quiet s').
    { split; [apply resetConverter_Inv; assumption|].
      rewrite Hjobs. constructor. }
    pose proof (dropFiles_spec faults latency names s' Hq') as Hpost.
    pose proof (Extends_callsSince _ _ _ (dp_calls _ _ _ Hpost)) as Hc.
    apply Forall_impl with (2 := Hc).
    intros c Hcall. destruct c; simpl in *; auto. congruence.
Qed.

(** Three files of which the second fails: a reset revokes the two URLs. *)
Lemma reset_releases_every_url_once_witness :
  revoked (resetConverter
             (run (faultAt 9 "exec: unsupported codec") unitLatency
                [Drop ["a.mkv"; "b.mkv"; "c.mkv"]]))
  = ["blob:0"; "blob:1"] /\
  Forall (fun url =>
            count_occ string_dec
              (revoked (resetConverter
                          (run (faultAt 9 "exec: unsupported codec") unitLatency
                             [Drop ["a.mkv"; "b.mkv"; "c.mkv"]]))) url = 1)
         (heldUrls (uploadedFiles
                      (run (faultAt 9 "exec: unsupported codec") unitLatency
                         [Drop ["a.mkv"; "b.mkv"; "c.mkv"]]))).
Proof.
  split; [vm_compute; reflexivity|].
  exact (proj1 (proj2 (reset_releases_every_url_once
                         (faultAt 9 "exec: unsupported codec") unitLatency
                         [Drop ["a.mkv"; "b.mkv"; "c.mkv"]]))).
Defined.


(** * Further properties of the component *)

(** ** File names *)

Lemma has_dot_app a b : JS.has_dot (a ++ b) = JS.has_dot a || JS.has_dot b.
Proof.
  induction a as [|c a IH]; [reflexivity|].
  simpl. rewrite IH. apply orb_assoc.
Qed.

Lemma has_dot_middle a b : JS.has_dot (a ++ String "." b) = true.
Proof. rewrite has_dot_app. apply orb_true_r. Qed.

Lemma replace_ext_no_dot s rep : JS.has_dot s = false -> JS.replace_ext s rep = s.
Proof.
  induction s as [|c r IH]; intros H; [reflexivity|].
  simpl in *. apply orb_false_iff in H. destruct H as [Hc Hr].
  rewrite Hc. simpl. rewrite (IH Hr). reflexivity.
Qed.

Lemma replace_ext_trailing_dot stem rep :
  JS.replace_ext (stem ++ ".") rep = stem ++ ".".
Proof.
  induction stem as [|c r IH]; [reflexivity|].
  cbn [append JS.replace_ext]. rewrite has_dot_middle.
  cbn [negb]. rewrite andb_false_r. cbn [andb]. rewrite IH. reflexivity.
Qed.

Lemma replace_ext_extension stem e rep :
  JS.has_dot e = false -> e <> "" ->
  JS.replace_ext (stem ++ "." ++ e) rep = stem ++ rep.
Proof.
  intros He Hne. induction stem as [|c r IH].
  - cbn [append JS.replace_ext].
    replace (JS.is_dot ".") with true by reflexivity. rewrite He.
    destruct (String.eqb_spec e "") as [->|_]; [contradiction|]. reflexivity.
  - cbn [append JS.replace_ext]. cbn [append] in IH.
    rewrite has_dot_middle. cbn [negb]. rewrite andb_false_r. cbn [andb].
    rewrite IH. reflexivity.
Qed.

Lemma split_pop_no_dot s : JS.has_dot s = false -> JS.split_pop s = s.
Proof.
  destruct s as [|c r]; intros H; [reflexivity|].
  cbn [JS.split_pop]. rewrite H. reflexivity.
Qed.

Lemma split_pop_extension stem e :
  JS.has_dot e = false -> JS.split_pop (stem ++ "." ++ e) = e.
Proof.
  intros He. induction stem as [|c r IH].
  - cbn [append JS.split_pop JS.has_dot].
    replace (JS.is_dot ".") with true by reflexivity. rewrite He. reflexivity.
  - cbn [append JS.split_pop]. cbn [append] in IH. cbn [JS.has_dot].
    rewrite has_dot_middle, orb_true_r. cbn [negb]. rewrite andb_false_r.
    exact IH.
Qed.

(** A name with a dot is a stem, the last dot and the text after it. *)
Lemma last_dot s :
  JS.has_dot s = true ->
  exists stem e, s = stem ++ "." ++ e /\ JS.has_dot e = false.
Proof.
  induction s as [|c r IH]; intros H; [discriminate|].
  destruct (JS.has_dot r) eqn:Hr.
  - destruct (IH eq_refl) as (stem & e & -> & He).
    exists (String c stem), e. split; [reflexivity | assumption].
  - simpl in H. rewrite Hr, orb_false_r in H.
    unfold JS.is_dot in H. apply Ascii.eqb_eq in H. subst c.
    exists "", r. split; [reflexivity | assumption].
Qed.

(** X1.  The download name: when the text after the last dot of the file
    name is not empty, [downloadVideo] replaces that last extension (and
    only it) by the selected format. *)
Theorem download_name_replaces_last_extension fmt fc s url stem e :
  FileConversion.downloadUrl fc = Some url -> url <> "" ->
  name (FileConversion.file fc) = stem ++ "." ++ e ->
  JS.has_dot e = false -> e <> "" ->
  downloads (downloadVideo fmt fc s) = (url, stem ++ "." ++ fmt) :: downloads s.
Proof.
  intros Hurl Hne Hname He Hene. unfold downloadVideo. rewrite Hurl.
  unfold JS.truthy. destruct (String.eqb_spec url "") as [->|_]; [contradiction|].
  cbn [negb]. rewrite Hname, (replace_ext_extension _ _ _ He Hene). reflexivity.
Qed.

Lemma download_name_replaces_last_extension_witness :
  JS.has_dot "mkv" = false /\
  downloads (downloadVideo "webm"
               (FileConversion.Build_t (Build_File 0 "holiday.2024.mkv")
                  Status.completed 100 (Some "blob:0") None) initial)
  = [("blob:0", "holiday.2024" ++ "." ++ "webm")].
Proof.
  split; [reflexivity|].
  apply (download_name_replaces_last_extension "webm"
           (FileConversion.Build_t (Build_File 0 "holiday.2024.mkv")
              Status.completed 100 (Some "blob:0") None)
           initial "blob:0" "holiday.2024" "mkv");
    try reflexivity; discriminate.
Defined.

(** X2.  A file name without a dot, or one that ends in a dot, is
    downloaded under its own name: the selected format is not appended. *)
Theorem download_name_without_extension_is_kept fmt fc s url :
  FileConversion.downloadUrl fc = Some url -> url <> "" ->
  JS.has_dot (name (FileConversion.file fc)) = false \/
  (exists stem, name (FileConversion.file fc) = stem ++ ".") ->
  downloads (downloadVideo fmt fc s)
  = (url, name (FileConversion.file fc)) :: downloads s.
Proof.
  intros Hurl Hne Hname. unfold downloadVideo. rewrite Hurl.
  unfold JS.truthy. destruct (String.eqb_spec url "") as [->|_]; [contradiction|].
  cbn [negb]. destruct Hname as [Hno|[stem Hs]].
  - rewrite (replace_ext_no_dot _ _ Hno). reflexivity.
  - rewrite Hs, replace_ext_trailing_dot. reflexivity.
Qed.

Lemma download_name_without_extension_is_kept_witness :
  JS.has_dot "recording" = false /\
  downloads (downloadVideo "mp4"
               (FileConversion.Build_t (Build_File 0 "recording")
                  Status.completed 100 (Some "blob:0") None) initial)
  = [("blob:0", "recording")].
Proof.
  split; [reflexivity|].
  apply (download_name_without_extension_is_kept "mp4"
           (FileConversion.Build_t (Build_File 0 "recording")
              Status.completed 100 (Some "blob:0") None) initial "blob:0");
    [reflexivity | discriminate | left; reflexivity].
Defined.

(** Without a dollar sign the replacement text is inserted as it is. *)
Lemma expand_no_dollar rep matched before after :
  JS.has_dollar rep = false -> JS.expand rep matched before after = rep.
Proof.
  induction rep as [|c r IH]; intros H; [reflexivity|].
  cbn [JS.has_dollar] in H. apply orb_false_iff in H. destruct H as [Hc Hr].
  cbn [JS.expand]. rewrite Hc, (IH Hr). reflexivity.
Qed.

Lemma replace_from_no_dollar rep s before :
  JS.has_dollar rep = false -> JS.replace_from before s rep = JS.replace_ext s rep.
Proof.
  intros H. revert before. induction s as [|c r IH]; intros before; [reflexivity|].
  cbn [JS.replace_from JS.replace_ext].
  destruct (JS.is_dot c && negb (JS.has_dot r) && negb (String.eqb r "")).
  - apply expand_no_dollar. assumption.
  - rewrite IH. reflexivity.
Qed.

Lemma replace_no_dollar s rep :
  JS.has_dollar rep = false -> JS.replace s rep = JS.replace_ext s rep.
Proof. apply replace_from_no_dollar. Qed.

(** With a dollar sign it is not: [$$] stands for one dollar sign, [$&]
    for the match and [$`] for the text before it. *)
Lemma replace_expands_patterns :
  JS.replace "x.$$" ".$$" = "x.$" /\
  JS.replace "clip.mkv" "[$&]" = "clip[.mkv]" /\
  JS.replace "clip.mkv" "-$`" = "clip-clip" /\
  JS.replace "clip.mkv" ".$1" = "clip.$1".
Proof. repeat split. Qed.

(** X3.  The extension [convertVideo] gives the input entry never has a
    dot and is the whole file name when that has no dot.  When it has no
    dollar sign either, putting it back with the [replace] call of
    [downloadVideo] gives the file name again: converting to the format a
    file already has keeps its name. *)
Theorem extension_round_trip s :
  JS.has_dot (JS.split_pop s) = false /\
  (if JS.has_dot s then True else JS.split_pop s = s) /\
  (JS.has_dollar (JS.split_pop s) = false ->
   JS.replace s ("." ++ JS.split_pop s) = s).
Proof.
  assert (Hrep : JS.replace_ext s ("." ++ JS.split_pop s) = s).
  { destruct (JS.has_dot s) eqn:H.
    - destruct (last_dot s H) as (stem & e & -> & He).
      rewrite (split_pop_extension _ _ He).
      destruct (String.eqb_spec e "") as [->|Hne].
      + apply replace_ext_trailing_dot.
      + apply (replace_ext_extension _ _ _ He Hne).
    - apply replace_ext_no_dot. assumption. }
  destruct (JS.has_dot s) eqn:H.
  - destruct (last_dot s H) as (stem & e & E & He).
    split; [rewrite E, (split_pop_extension _ _ He); assumption|].
    split; [exact I|].
    intros Hd. rewrite replace_no_dollar; [exact Hrep | exact Hd].
  - split; [rewrite (split_pop_no_dot _ H); assumption|].
    split; [apply split_pop_no_dot; assumption|].
    intros Hd. rewrite replace_no_dollar; [exact Hrep | exact Hd].
Qed.

Lemma extension_round_trip_witness :
  JS.has_dollar (JS.split_pop "holiday.2024.mkv") = false /\
  JS.split_pop "holiday.2024.mkv" = "mkv" /\
  JS.replace "holiday.2024.mkv" ("." ++ JS.split_pop "holiday.2024.mkv")
  = "holiday.2024.mkv".
Proof.
  split; [reflexivity|]. split; [reflexivity|].
  exact (proj2 (proj2 (extension_round_trip "holiday.2024.mkv")) eq_refl).
Defined.

(** ** Invariants of a whole session *)

Lemma fold_step_invariant faults latency (J : Sys -> Prop) :
  (forall s a, Quiet s -> J s -> J (step faults latency s a)) ->
  forall acts s, Quiet s -> J s -> J (fold_left (step faults latency) acts s).
Proof.
  intros Hstep acts. induction acts as [|a acts IH]; intros s Hq Hj; [assumption|].
  simpl. apply IH; [apply step_Quiet; assumption | apply Hstep; assumption].
Qed.

Lemma run_invariant faults latency (J : Sys -> Prop) :
  J initial ->
  (forall s a, Quiet s -> J s -> J (step faults latency s a)) ->
  forall acts, J (run faults latency acts).
Proof.
  intros H0 Hstep acts. unfold run.
  apply (fold_step_invariant faults latency J Hstep acts initial initial_Quiet H0).
Qed.

Lemma run_app faults latency acts more :
  run faults latency (acts ++ more)
  = fold_left (step faults latency) more (run faults latency acts).
Proof. unfold run. apply fold_left_app. Qed.

(** An invariant [J] that every conversion of the head of the queue keeps
    is kept by the loop of [onDrop]. *)
Lemma batch_invariant faults latency fmt snap (J : Sys -> Prop) :
  (forall done f rest s,
     uploadedFiles s = (done ++ pendingJob f :: map pendingJob rest)%list ->
     Inv s -> J s ->
     J (snd (convertVideo faults latency fmt snap (pendingJob f) s))) ->
  forall todo done s,
    uploadedFiles s = (done ++ map pendingJob todo)%list ->
    Inv s -> J s ->
    J (snd (for_of (map pendingJob todo)
              (convertVideo faults latency fmt snap) s)).
Proof.
  intros Hconv todo. induction todo as [|f rest IH]; intros done s Hjobs Hinv Hj;
    [assumption|].
  cbn [map for_of]. unfold bind.
  pose proof (Hconv done f rest s Hjobs Hinv Hj) as Hj1.
  destruct (convertVideo_spec faults latency fmt snap (pendingJob f) s)
    as [Hret Hpost].
  destruct (convertVideo faults latency fmt snap (pendingJob f) s) as [c1 s1].
  simpl in Hret, Hpost, Hj1. subst c1.
  assert (Hinv1 : Inv s1) by (apply (convertVideo_post_Inv _ _ _ _ Hinv Hpost)).
  destruct (cv_jobs _ _ _ _ Hpost) as (g & Hg & _).
  apply (IH (done ++ [g (pendingJob f)])%list s1); try assumption.
  rewrite Hg, Hjobs. cbn [map].
  rewrite mapJob_at, <- app_assoc; [reflexivity|].
  cbn [map] in Hjobs. rewrite <- Hjobs. apply (i_refs _ Hinv).
Qed.

Lemma downloadVideo_frame fmt fc s :
  downloadVideo fmt fc s = s \/
  exists d, downloadVideo fmt fc s = set_downloads d s.
Proof.
  unfold downloadVideo. destruct (FileConversion.downloadUrl fc); [|left; reflexivity].
  destruct (JS.truthy _); [right; eexists; reflexivity | left; reflexivity].
Qed.

(** No conversion, and so no drop, changes the selected format, in
    whatever state it starts. *)
Lemma for_of_convertVideo_format faults latency fmt snap jobs s :
  outputFormat (snd (for_of jobs (convertVideo faults latency fmt snap) s))
  = outputFormat s.
Proof.
  revert s. induction jobs as [|fc rest IH]; intros s; [reflexivity|].
  cbn [for_of]. unfold bind.
  destruct (convertVideo_spec faults latency fmt snap fc s) as [Hret Hpost].
  pose proof (cv_format _ _ _ _ Hpost) as Hfmt.
  destruct (convertVideo faults latency fmt snap fc s) as [c1 s1].
  simpl in Hret, Hfmt. subst c1. rewrite IH. exact Hfmt.
Qed.

Lemma onDrop_format faults latency fmt snap files s :
  outputFormat (snd (onDrop faults latency fmt snap files s)) = outputFormat s.
Proof.
  unfold onDrop. cbv zeta. unfold bind, act.
  rewrite for_of_convertVideo_format. reflexivity.
Qed.

Lemma step_format faults latency s a :
  outputFormat (step faults latency s a)
  = match a with
    | SelectFormat i =>
        match nth_error OUTPUT_FORMATS i with
        | Some fmt => if busy s then outputFormat s else OutputFormat.value fmt
        | None => outputFormat s
        end
    | _ => outputFormat s
    end.
Proof.
  destruct a as [names|i|i|]; cbn [step].
  - destruct (_ && _); [|reflexivity].
    unfold dropFiles. cbv zeta. rewrite onDrop_format. reflexivity.
  - destruct (nth_error OUTPUT_FORMATS i) as [f|]; [|reflexivity].
    destruct (busy s); reflexivity.
  - destruct (nth_error (uploadedFiles s) i) as [fc|]; [|reflexivity].
    destruct (Status.eqb _ _); [|reflexivity].
    destruct (downloadVideo_frame (outputFormat s) fc s) as [->|[d ->]];
      reflexivity.
  - destruct (uploadedFiles s); [reflexivity|].
    destruct (resetConverter_fields s) as (_ & _ & _ & E & _). exact E.
Qed.

Lemma run_format_listed faults latency acts :
  In (outputFormat (run faults latency acts))
     (map OutputFormat.value OUTPUT_FORMATS).
Proof.
  unfold run. rewrite <- (rev_involutive acts).
  induction (rev acts) as [|a racts IH]; [left; reflexivity|].
  cbn [rev]. rewrite fold_left_app. cbn [fold_left]. rewrite step_format.
  destruct a as [names|i|i|]; try exact IH.
  destruct (nth_error OUTPUT_FORMATS i) as [f|] eqn:E; [|exact IH].
  destruct (busy _); [exact IH|]. apply in_map. apply (nth_error_In _ _ E).
Qed.

(** In every state the user can reach the replacement text of
    [downloadVideo] has no dollar sign, so the name it computes with
    [JS.replace_ext] is the one [String.prototype.replace] gives. *)
Lemma download_replacement_is_literal faults latency acts fileName :
  let s := run faults latency acts in
  JS.replace fileName ("." ++ outputFormat s)
  = JS.replace_ext fileName ("." ++ outputFormat s).
Proof.
  intros s. apply replace_no_dollar.
  pose proof (run_format_listed faults latency acts) as Hin. fold s in Hin.
  cbn [map OUTPUT_FORMATS OutputFormat.value In] in Hin.
  repeat (destruct Hin as [<-|Hin]; [reflexivity|]). destruct Hin.
Qed.

(** X4.  Only a radio button changes the selected format.  In whatever
    state the component is, a drop, a click on a Download button and a
    click on Clear All Files leave [outputFormat] as it is, and a radio
    button sets it to its own value, or does nothing while the phase is
    loading or converting.  In every state the user can reach it is
    therefore one of the values of [OUTPUT_FORMATS]. *)
Theorem selected_format_is_listed faults latency :
  (forall s a,
     outputFormat (step faults latency s a)
     = match a with
       | SelectFormat i =>
           match nth_error OUTPUT_FORMATS i with
           | Some fmt => if busy s then outputFormat s else OutputFormat.value fmt
           | None => outputFormat s
           end
       | _ => outputFormat s
       end) /\
  (forall acts,
     In (outputFormat (run faults latency acts))
        (map OutputFormat.value OUTPUT_FORMATS)) /\
  outputFormat initial = "mp4".
Proof.
  split; [apply step_format|]. split; [apply run_format_listed | reflexivity].
Qed.

(** ** The engine instance *)

Lemma Extends_loadCalls (P : EngineCall -> Prop) old new :
  (forall c, P c -> isLoad c = false) ->
  Extends P old new ->
  length (filter isLoad new) = length (filter isLoad old).
Proof.
  intros HP H. induction H as [|c l Hc _ IH]; [reflexivity|].
  cbn [filter]. rewrite (HP c Hc). assumption.
Qed.

Lemma step_keeps_engine faults latency s a h :
  Quiet s -> ffmpegRef s = Some h ->
  ffmpegRef (step faults latency s a) = Some h /\
  instances (step faults latency s a) = instances s /\
  loadCalls (step faults latency s a) = loadCalls s.
Proof.
  intros Hq Hh. destruct a as [names|i|i|]; simpl.
  - destruct (_ && _); [|auto].
    pose proof (dropFiles_spec faults latency names s Hq) as Hpost.
    destruct (dp_engine _ _ _ Hpost h Hh) as [E1 E2].
    split; [assumption|]. split; [assumption|].
    unfold loadCalls.
    apply (Extends_loadCalls (batchCall (outputFormat s) (enqueued names s) s));
      [|apply (dp_calls _ _ _ Hpost)].
    intros c Hc. destruct c; simpl in Hc; try reflexivity. congruence.
  - destruct (nth_error OUTPUT_FORMATS i); [|auto]. destruct (busy s); auto.
  - destruct (nth_error (uploadedFiles s) i) as [fc|]; [|auto].
    destruct (Status.eqb _ _); [|auto].
    destruct (downloadVideo_frame (outputFormat s) fc s) as [->|[d ->]]; auto.
  - destruct (uploadedFiles s); [auto|].
    destruct (resetConverter_fields s) as (_ & _ & _ & _ & E1 & E2 & E3 & _).
    unfold loadCalls. rewrite E1, E2, E3. auto.
Qed.

Lemma engine_kept_between_actions faults latency acts more h :
  ffmpegRef (run faults latency acts) = Some h ->
  ffmpegRef (run faults latency (acts ++ more)) = Some h /\
  instances (run faults latency (acts ++ more))
  = instances (run faults latency acts) /\
  loadCalls (run faults latency (acts ++ more))
  = loadCalls (run faults latency acts).
Proof.
  rewrite run_app. generalize (run_Quiet faults latency acts).
  generalize (run faults latency acts). intros s Hq Hh.
  revert s Hq Hh. induction more as [|a more IH]; intros s Hq Hh; [auto|].
  simpl. destruct (step_keeps_engine faults latency s a h Hq Hh) as (E1 & E2 & E3).
  destruct (IH _ (step_Quiet faults latency s a Hq) E1) as (F1 & F2 & F3).
  split; [assumption|]. split; congruence.
Qed.

(** X5.  The engine is loaded once, as long as the user clicks nothing
    while an engine call is pending.  In such a session, from a state in
    which [ffmpegRef] holds an instance on, whatever is dropped, selected,
    downloaded or cleared between the drops and whatever the engine
    answers, the same instance stays in [ffmpegRef], no other instance is
    constructed and [load] is never called again. *)
Theorem loaded_engine_is_reused faults latency clicks acts more h :
  (forall k, clicks k = []) ->
  ffmpegRef (Interleaved.run faults latency clicks acts) = Some h ->
  ffmpegRef (Interleaved.run faults latency clicks (acts ++ more)) = Some h /\
  instances (Interleaved.run faults latency clicks (acts ++ more))
  = instances (Interleaved.run faults latency clicks acts) /\
  loadCalls (Interleaved.run faults latency clicks (acts ++ more))
  = loadCalls (Interleaved.run faults latency clicks acts).
Proof.
  intros Hq. rewrite !(agree_run faults latency clicks Hq).
  apply engine_kept_between_actions.
Qed.

Lemma loaded_engine_is_reused_witness :
  ffmpegRef (Interleaved.run (faultAt 9 "exec: unsupported codec") unitLatency
               noClicks [Drop ["a.mkv"]]) = Some 0 /\
  loadCalls (Interleaved.run (faultAt 9 "exec: unsupported codec") unitLatency
               noClicks
               ([Drop ["a.mkv"]]
                ++ [Drop ["b.mkv"; "c.mkv"]; ClickReset; Drop ["d.mkv"]]))
  = loadCalls (Interleaved.run (faultAt 9 "exec: unsupported codec") unitLatency
                 noClicks [Drop ["a.mkv"]]).
Proof.
  assert (H : ffmpegRef (Interleaved.run (faultAt 9 "exec: unsupported codec")
                           unitLatency noClicks [Drop ["a.mkv"]]) = Some 0)
    by reflexivity.
  split; [exact H|].
  exact (proj2 (proj2 (loaded_engine_is_reused
                         (faultAt 9 "exec: unsupported codec") unitLatency
                         noClicks
                         [Drop ["a.mkv"]]
                         [Drop ["b.mkv"; "c.mkv"]; ClickReset; Drop ["d.mkv"]]
                         0 (fun _ => eq_refl) H))).
Defined.

(** ** The aggregate phase *)

Lemma neverError_setUploadedFiles upd s :
  neverError s -> neverError (setUploadedFiles upd s).
Proof.
  intros [Hp Hh]. split; [exact Hp|]. simpl. constructor; assumption.
Qed.

Lemma neverError_setConversionState c s :
  Phase.eqb (ConversionProgress.phase c) Phase.error = false ->
  neverError s -> neverError (setConversionState c s).
Proof.
  intros Hc [Hp Hh]. split; [exact Hc|]. simpl. constructor; assumption.
Qed.

Section NeverError.

Variable faults : nat -> option string.
Variable latency : nat -> nat.

Ltac keep_neverError :=
  first
    [ apply spec_read; intros ? H; exact H
    | apply spec_engine; intros ? ? H; exact H
    | apply spec_act; intros ? H;
      first [ exact H
            | apply neverError_setUploadedFiles; exact H
            | apply neverError_setConversionState; [reflexivity | exact H] ]
    | intros ? H; exact H ].

Ltac next_neverError :=
  apply spec_bind with (Q1 := fun _ => neverError); [ keep_neverError | intros ? ].

Lemma neverError_initializeFFmpeg :
  spec neverError (initializeFFmpeg faults latency) (fun _ => neverError) neverError.
Proof.
  unfold initializeFFmpeg. next_neverError.
  destruct a as [h|]; [apply spec_ret; auto|].
  next_neverError. next_neverError.
  apply spec_try with (E1 := neverError).
  - unfold FFmpeg_load. next_neverError. next_neverError. apply spec_ret. auto.
  - intros e. unfold console_error. next_neverError. apply spec_throw. auto.
Qed.

Lemma neverError_convertVideo fmt snap fc :
  spec neverError (convertVideo faults latency fmt snap fc)
       (fun _ => neverError) neverError.
Proof.
  unfold convertVideo. apply spec_try with (E1 := neverError).
  - unfold convertVideo_try, Date_now, fetchFile, FFmpeg_writeFile, FFmpeg_exec,
      FFmpeg_readFile, FFmpeg_deleteFile.
    apply spec_bind with (Q1 := fun _ => neverError);
      [apply neverError_initializeFFmpeg | intros ffmpeg].
    do 10 next_neverError. next_neverError. next_neverError.
    destruct (forallb _ snap); [keep_neverError | apply spec_ret; auto].
  - intros e. unfold console_error. next_neverError. keep_neverError.
Qed.

Lemma neverError_after_convertVideo fmt snap fc s :
  neverError s -> neverError (snd (convertVideo faults latency fmt snap fc s)).
Proof.
  intros H. generalize (neverError_convertVideo fmt snap fc s H).
  destruct (convertVideo _ _ _ _ _ _) as [[a|e] s1]; auto.
Qed.

Lemma neverError_step s a :
  Quiet s -> neverError s -> neverError (step faults latency s a).
Proof.
  intros [Hinv Hterm] Hne. destruct a as [names|i|i|]; cbn [step].
  - destruct (_ && _); [|assumption].
    rewrite (dropFiles_unfold _ _ _ _ (i_cap _ Hinv)).
    apply (batch_invariant faults latency (outputFormat s) (uploadedFiles s)
             neverError) with (done := uploadedFiles s).
    + intros done f rest s1 _ _ H1. apply neverError_after_convertVideo. exact H1.
    + reflexivity.
    + apply enqueue_Inv. assumption.
    + unfold enqueue. apply neverError_setUploadedFiles. exact Hne.
  - destruct (nth_error OUTPUT_FORMATS i); [|assumption].
    destruct (busy s); [assumption | exact Hne].
  - destruct (nth_error (uploadedFiles s) i) as [fc|]; [|assumption].
    destruct (Status.eqb _ _); [|assumption].
    destruct (downloadVideo_frame (outputFormat s) fc s) as [->|[d ->]];
      [assumption | exact Hne].
  - destruct (uploadedFiles s) eqn:E; [assumption|].
    unfold resetConverter. rewrite revokeAll_spec.
    apply neverError_setConversionState; [reflexivity|].
    apply neverError_setUploadedFiles. exact Hne.
Qed.

End NeverError.

(** X6.  The aggregate phase is never [error]: in every state the user can
    reach and in every state the component went through on the way, also
    after failed conversions and failed engine loads, the phase is idle,
    loading, converting or completed, so [getStatusIcon] never returns the
    error icon. *)
Theorem status_icon_is_never_the_error_icon faults latency acts :
  let s := run faults latency acts in
  Phase.eqb (phaseOf s) Phase.error = false /\
  In (getStatusIcon (phaseOf s)) [Loader2; CheckCircle; FileVideo] /\
  Forall (fun snap =>
            Phase.eqb (snd snap) Phase.error = false /\
            In (getStatusIcon (snd snap)) [Loader2; CheckCircle; FileVideo])
         (history s).
Proof.
  intros s.
  assert (Hicon : forall p, Phase.eqb p Phase.error = false ->
                            In (getStatusIcon p) [Loader2; CheckCircle; FileVideo]).
  { intros p Hp. destruct p; simpl; auto. discriminate Hp. }
  assert (Hne : neverError s).
  { apply run_invariant.
    - split; [reflexivity | constructor].
    - intros s1 a. apply neverError_step. }
  destruct Hne as [Hp Hh]. split; [assumption|]. split; [apply Hicon; assumption|].
  apply Forall_impl with (2 := Hh). intros snap Hs. split; [assumption | auto].
Qed.

(** ** Object URLs *)

Lemma noOrphanUrl_convertVideo faults latency fmt snap done f rest s :
  uploadedFiles s = (done ++ pendingJob f :: map pendingJob rest)%list ->
  Inv s -> noOrphanUrl s ->
  noOrphanUrl (snd (convertVideo faults latency fmt snap (pendingJob f) s)).
Proof.
  intros Hjobs Hinv Hno.
  destruct (convertVideo_spec faults latency fmt snap (pendingJob f) s)
    as [_ Hpost].
  destruct (cv_jobs _ _ _ _ Hpost) as (g & Hg & _ & _ & _ & _ & Hurl).
  pose proof (cv_revoked _ _ _ _ Hpost) as Hrev.
  unfold noOrphanUrl in *.
  destruct Hurl as [[Hobj Hkeep]|[mime [Hobj Hnew]]].
  - rewrite Hobj, Hrev, Hg, (heldUrls_same _ _ _ Hkeep). assumption.
  - assert (Hnd : NoDup (map refOf (done ++ pendingJob f :: map pendingJob rest)%list))
      by (rewrite <- Hjobs; apply (i_refs _ Hinv)).
    rewrite Hobj, Hrev, Hg, Hjobs, (mapJob_at _ _ _ _ Hnd).
    rewrite Hjobs in Hno.
    assert (Hy : heldUrls [g (pendingJob f)] = [newUrl s]).
    { unfold heldUrls. cbn [flat_map]. rewrite Hnew, newUrl_urlOf.
      rewrite urlOf_truthy. reflexivity. }
    change (g (pendingJob f) :: map pendingJob rest)
      with ([g (pendingJob f)] ++ map pendingJob rest)%list.
    change (pendingJob f :: map pendingJob rest)
      with ([pendingJob f] ++ map pendingJob rest)%list in Hno.
    rewrite !heldUrls_app in *. rewrite Hy.
    change (heldUrls [pendingJob f]) with (@nil string) in Hno.
    cbn [map fst]. constructor.
    + apply in_or_app. left. apply in_or_app. right. left. reflexivity.
    + apply Forall_impl with (2 := Hno). intros u Hu.
      apply in_app_or in Hu. apply in_or_app. destruct Hu as [Hu|Hu]; [|right; assumption].
      left. apply in_app_or in Hu. apply in_or_app.
      destruct Hu as [Hu|Hu]; [left; assumption|].
      right. right. exact Hu.
Qed.

Lemma urls_tracked_between_actions faults latency acts :
  let s := run faults latency acts in
  Forall (fun url => In url (heldUrls (uploadedFiles s) ++ revoked s)%list)
         (map fst (objectUrls s)).
Proof.
  intros s. change (noOrphanUrl s). apply run_invariant; [constructor|].
  intros s1 a [Hinv Hterm] Hno. destruct a as [names|i|i|]; cbn [step].
  - destruct (_ && _); [|assumption].
    rewrite (dropFiles_unfold _ _ _ _ (i_cap _ Hinv)).
    apply (batch_invariant faults latency (outputFormat s1) (uploadedFiles s1)
             noOrphanUrl) with (done := uploadedFiles s1).
    + intros done f rest s2. apply noOrphanUrl_convertVideo.
    + reflexivity.
    + apply enqueue_Inv. assumption.
    + unfold noOrphanUrl, enqueue. simpl.
      rewrite heldUrls_app, heldUrls_pending, app_nil_r. exact Hno.
  - destruct (nth_error OUTPUT_FORMATS i); [|assumption].
    destruct (busy s1); [assumption | exact Hno].
  - destruct (nth_error (uploadedFiles s1) i) as [fc|]; [|assumption].
    destruct (Status.eqb _ _); [|assumption].
    destruct (downloadVideo_frame (outputFormat s1) fc s1) as [->|[d ->]];
      [assumption | exact Hno].
  - destruct (uploadedFiles s1) eqn:E; [assumption|].
    unfold noOrphanUrl in *. unfold resetConverter. rewrite revokeAll_spec.
    simpl. apply Forall_impl with (2 := Hno). intros u Hu.
    apply in_app_or in Hu. apply in_or_app. destruct Hu; [right | left]; assumption.
Qed.

(** A Clear All Files click while a conversion is pending orphans its
    URL: the update that would store it finds no job. *)
Lemma url_orphaned_by_click_during_conversion :
  let s := Interleaved.run noFaults unitLatency (clickDuring 3 ClearAllFiles)
             [Drop ["a.mkv"]] in
  map fst (objectUrls s) = ["blob:0"] /\
  heldUrls (uploadedFiles s) = [] /\ revoked s = [].
Proof. vm_compute. repeat split. Qed.

(** X7.  No object URL is orphaned as long as the user clicks nothing
    while an engine call is pending: in every state of such a session,
    every URL the component has created with [URL.createObjectURL] is
    either still held by a job of the list, where a reset will revoke it,
    or has been revoked. *)
Theorem every_created_url_is_held_or_revoked faults latency clicks acts :
  (forall k, clicks k = []) ->
  let s := Interleaved.run faults latency clicks acts in
  Forall (fun url => In url (heldUrls (uploadedFiles s) ++ revoked s)%list)
         (map fst (objectUrls s)).
Proof.
  intros Hq. rewrite (agree_run faults latency clicks Hq).
  apply urls_tracked_between_actions.
Qed.

Lemma every_created_url_is_held_or_revoked_witness :
  Forall (fun url =>
            In url (heldUrls (uploadedFiles
                                (Interleaved.run noFaults unitLatency noClicks
                                   [Drop ["a.mkv"; "b.mkv"]; ClickReset;
                                    Drop ["c.mkv"]]))
                    ++ revoked (Interleaved.run noFaults unitLatency noClicks
                                  [Drop ["a.mkv"; "b.mkv"]; ClickReset;
                                   Drop ["c.mkv"]]))%list)
         (map fst (objectUrls
                     (Interleaved.run noFaults unitLatency noClicks
                        [Drop ["a.mkv"; "b.mkv"]; ClickReset; Drop ["c.mkv"]]))).
Proof.
  exact (every_created_url_is_held_or_revoked noFaults unitLatency noClicks
           [Drop ["a.mkv"; "b.mkv"]; ClickReset; Drop ["c.mkv"]]
           (fun _ => eq_refl)).
Defined.

(** ** The phase after a batch *)

Lemma spec_conj {A : Type} (P1 P2 : Sys -> Prop) (m : Async A)
    (Q1 Q2 : A -> Sys -> Prop) (E1 E2 : Sys -> Prop) :
  spec P1 m Q1 E1 -> spec P2 m Q2 E2 ->
  spec (fun s => P1 s /\ P2 s) m (fun a s => Q1 a s /\ Q2 a s)
       (fun s => E1 s /\ E2 s).
Proof.
  intros H1 H2 s [Hp1 Hp2]. specialize (H1 s Hp1). specialize (H2 s Hp2).
  destruct (m s) as [[a|e] s1]; split; assumption.
Qed.

Lemma busy_of_converting s : phaseOf s = Phase.converting -> busy s = true.
Proof. intros H. unfold busy. rewrite H. reflexivity. Qed.

Lemma allCompleted_terminal fc snap :
  Forall terminal snap -> allCompleted fc snap = true.
Proof.
  intros H. unfold allCompleted. apply forallb_forall. intros x Hx.
  rewrite Forall_forall in H. specialize (H x Hx).
  unfold terminal, terminalStatus in H. rewrite <- orb_assoc, H.
  apply orb_true_r.
Qed.

Section LastJob.

Variable faults : nat -> option string.
Variable latency : nat -> nat.
Variable fmt : string.
Variable snap : list FileConversion.t.

Ltac while_converting :=
  apply spec_bind with (Q1 := fun _ s => phaseOf s = Phase.converting);
  [ first
      [ apply spec_read; intros ? H; exact H
      | apply spec_engine; intros ? ? H;
        [ apply busy_of_converting; exact H | exact H ]
      | apply spec_act; intros ? H; exact H
      | intros ? H; exact H ]
  | intros ? ].

Lemma phase_initializeFFmpeg :
  spec (fun _ => True) (initializeFFmpeg faults latency)
       (fun _ _ => True) (fun s => busy s = true).
Proof.
  unfold initializeFFmpeg.
  apply spec_bind with (Q1 := fun _ _ => True); [apply spec_read; auto|].
  intros [h|]; [apply spec_ret; auto|].
  apply spec_bind with (Q1 := fun _ _ => True); [intros s _; exact I|]. intros ffmpeg.
  apply spec_bind with (Q1 := fun _ s => busy s = true);
    [apply spec_act; intros s _; reflexivity|]. intros _.
  apply spec_try with (E1 := fun s => busy s = true).
  - apply spec_bind with (Q1 := fun _ _ => True);
      [apply spec_engine; intros s t H; [exact H | exact I]|]. intros _.
    apply spec_bind with (Q1 := fun _ _ => True); [apply spec_act; auto|].
    intros _. apply spec_ret. auto.
  - intros e. apply spec_bind with (Q1 := fun _ s => busy s = true);
      [apply spec_act; intros s H; exact H|].
    intros _. apply spec_throw. auto.
Qed.

Lemma phase_convertVideo_try fc :
  spec (fun _ => True) (convertVideo_try faults latency fmt snap fc)
       (fun _ s => phaseOf s = phaseAtEnd snap fc) (fun s => busy s = true).
Proof.
  unfold convertVideo_try, Date_now, fetchFile, FFmpeg_writeFile, FFmpeg_exec,
    FFmpeg_readFile, FFmpeg_deleteFile.
  apply spec_bind with (Q1 := fun _ _ => True);
    [apply phase_initializeFFmpeg | intros ffmpeg].
  apply spec_bind with (Q1 := fun _ _ => True); [apply spec_act; auto | intros _].
  apply spec_bind with (Q1 := fun _ s => phaseOf s = Phase.converting);
    [apply spec_act; intros s _; reflexivity | intros _].
  do 10 while_converting.
  unfold phaseAtEnd, allCompleted. destruct (forallb _ snap).
  - apply spec_act. intros s _. reflexivity.
  - apply spec_ret. auto.
Qed.

(** A conversion ends in one of two ways: the records of the file are
    completed and the phase is what the test on the captured list says, or
    they are failed and the phase is loading or converting. *)
Lemma convertVideo_ends fc s :
  let s' := snd (convertVideo faults latency fmt snap fc s) in
  exists g, uploadedFiles s' = mapJob fc g (uploadedFiles s) /\
    ((forall x, FileConversion.status (g x) = Status.completed) /\
     phaseOf s' = phaseAtEnd snap fc \/
     (forall x, FileConversion.status (g x) = Status.error) /\ busy s' = true).
Proof.
  pose proof (spec_conj _ _ _ _ _ _ _
                (spec_convertVideo_try faults latency fmt fc s snap)
                (phase_convertVideo_try fc) s (conj eq_refl I)) as H.
  unfold convertVideo, try_catch.
  destruct (convertVideo_try faults latency fmt snap fc s) as [[a|e] s1]; simpl.
  - destruct H as [Hp Hphase].
    destruct (pg_jobs _ _ _ _ _ Hp) as (g & Hg & _ & _ & Hall & _).
    exists g. split; [assumption|]. left. split; [|assumption].
    intro x. apply Hall.
  - destruct H as [[d Hp] Hbusy].
    destruct (pg_jobs _ _ _ _ _ Hp) as (g & Hg & Hk & _).
    exists (fun x => markError (g x)). split.
    + rewrite Hg. apply mapJob_mapJob. assumption.
    + right. split; [intro; reflexivity | exact Hbusy].
Qed.

Lemma batch_last :
  Forall terminal snap ->
  forall todo done s,
    uploadedFiles s = (done ++ map pendingJob todo)%list ->
    Inv s -> todo <> [] ->
    let s' := snd (for_of (map pendingJob todo)
                     (convertVideo faults latency fmt snap) s) in
    exists front y,
      uploadedFiles s' = (front ++ [y])%list /\
      (FileConversion.status y = Status.completed /\ phaseOf s' = Phase.completed \/
       FileConversion.status y = Status.error /\ busy s' = true).
Proof.
  intros Hsnap todo. induction todo as [|f rest IH]; intros done s Hjobs Hinv Hne;
    [contradiction|].
  cbn [map for_of]. unfold bind.
  destruct (convertVideo_spec faults latency fmt snap (pendingJob f) s)
    as [Hret Hpost].
  pose proof (convertVideo_ends (pendingJob f) s) as Hend.
  destruct (convertVideo faults latency fmt snap (pendingJob f) s) as [c1 s1].
  simpl in Hret, Hpost, Hend. subst c1.
  assert (Hinv1 : Inv s1) by (apply (convertVideo_post_Inv _ _ _ _ Hinv Hpost)).
  assert (Hnd : NoDup (map refOf (done ++ pendingJob f :: map pendingJob rest)%list)).
  { cbn [map] in Hjobs. rewrite <- Hjobs. apply (i_refs _ Hinv). }
  cbn [map] in Hjobs.
  destruct Hend as (g & Hg & Hcase).
  rewrite Hjobs, (mapJob_at _ _ _ _ Hnd) in Hg.
  destruct rest as [|f' rest'].
  - simpl. exists done, (g (pendingJob f)). split; [exact Hg|].
    unfold phaseAtEnd in Hcase.
    rewrite (allCompleted_terminal _ _ Hsnap) in Hcase.
    destruct Hcase as [[Hs Hp]|[Hs Hb]]; [left | right]; split; auto.
  - apply (IH (done ++ [g (pendingJob f)])%list s1); try assumption.
    + rewrite Hg, <- app_assoc. reflexivity.
    + discriminate.
Qed.

End LastJob.

Lemma last_job_decides_uninterrupted faults latency acts names :
  let s := run faults latency acts in
  let s' := dropFiles faults latency names s in
  names <> [] -> length (uploadedFiles s) < 5 ->
  exists front y,
    uploadedFiles s' = (front ++ [y])%list /\
    (FileConversion.status y = Status.completed /\ phaseOf s' = Phase.completed \/
     FileConversion.status y = Status.error /\ busy s' = true /\
     forall more i,
       step faults latency s' (Drop more) = s' /\
       step faults latency s' (SelectFormat i) = s').
Proof.
  intros s s' Hnames Hroom.
  destruct (run_Quiet faults latency acts) as [Hinv Hterm]. fold s in Hinv, Hterm.
  assert (Hne : enqueued names s <> []).
  { unfold enqueued. destruct names as [|n rest]; [contradiction|].
    destruct (5 - length (uploadedFiles s)) eqn:E; [lia|]. discriminate. }
  unfold s'. rewrite (dropFiles_unfold _ _ _ _ (i_cap _ Hinv)).
  destruct (batch_last faults latency (outputFormat s) (uploadedFiles s) Hterm
              (enqueued names s) (uploadedFiles s) (enqueue names s)
              eq_refl (enqueue_Inv names s Hinv) Hne)
    as (front & y & Hj & Hcase).
  exists front, y. split; [exact Hj|].
  destruct Hcase as [Hok|[Hs Hb]]; [left; exact Hok|].
  right. split; [assumption|]. split; [assumption|].
  intros more i. cbn [step]. rewrite Hb, andb_false_r.
  split; [reflexivity|]. destruct (nth_error OUTPUT_FORMATS i); reflexivity.
Qed.

(** A Clear All Files click while a conversion is pending leaves no last
    job: the drop ends with an empty list, here with the phase completed. *)
Lemma no_last_job_after_click_during_conversion :
  let s := Interleaved.dropFiles noFaults unitLatency
             (clickDuring 3 ClearAllFiles) ["a.mkv"] initial in
  uploadedFiles s = [] /\ phaseOf s = Phase.completed.
Proof. vm_compute. repeat split. Qed.

(** X8.  The phase after a batch is decided by its last job alone, as long
    as the user clicks nothing while an engine call is pending.  In such a
    session, after a drop that enqueues at least one file, either the last
    job of the list is completed and the phase is completed (whatever
    happened to the jobs before it), or the last job is failed and the
    phase is still loading or converting; in that case the component
    ignores every further drop and every format selection. *)
Theorem phase_follows_last_job faults latency clicks acts names :
  (forall k, clicks k = []) ->
  let s := Interleaved.run faults latency clicks acts in
  let s' := Interleaved.dropFiles faults latency clicks names s in
  names <> [] -> length (uploadedFiles s) < 5 ->
  exists front y,
    uploadedFiles s' = (front ++ [y])%list /\
    (FileConversion.status y = Status.completed /\ phaseOf s' = Phase.completed \/
     FileConversion.status y = Status.error /\ busy s' = true /\
     forall more i,
       Interleaved.step faults latency clicks s' (Drop more) = s' /\
       Interleaved.step faults latency clicks s' (SelectFormat i) = s').
Proof.
  intros Hq s s' Hnames Hroom. subst s s'.
  rewrite (agree_run faults latency clicks Hq) in *.
  rewrite (agree_dropFiles faults latency clicks Hq).
  destruct (last_job_decides_uninterrupted faults latency acts names Hnames Hroom)
    as (front & y & Hj & Hcase).
  exists front, y. split; [exact Hj|].
  destruct Hcase as [Hok|(Hs & Hb & Hstep)]; [left; exact Hok|].
  right. split; [assumption|]. split; [assumption|].
  intros more i. rewrite !(agree_step faults latency clicks Hq). apply Hstep.
Qed.

Lemma phase_follows_last_job_witness :
  (["b.mkv"; "c.mkv"] <> [] /\
   length (uploadedFiles (Interleaved.run (faultAt 15 "exec: unsupported codec")
                            unitLatency noClicks [Drop ["a.mkv"]])) < 5) /\
  showJobs (Interleaved.dropFiles (faultAt 15 "exec: unsupported codec")
              unitLatency noClicks ["b.mkv"; "c.mkv"]
              (Interleaved.run (faultAt 15 "exec: unsupported codec")
                 unitLatency noClicks [Drop ["a.mkv"]]))
  = [ ("a.mkv", Status.completed, Some "blob:0", None);
      ("b.mkv", Status.completed, Some "blob:1", None);
      ("c.mkv", Status.error, None, Some "Conversion failed") ] /\
  busy (Interleaved.dropFiles (faultAt 15 "exec: unsupported codec")
          unitLatency noClicks ["b.mkv"; "c.mkv"]
          (Interleaved.run (faultAt 15 "exec: unsupported codec")
             unitLatency noClicks [Drop ["a.mkv"]])) = true /\
  exists front y,
    uploadedFiles (Interleaved.dropFiles (faultAt 15 "exec: unsupported codec")
                     unitLatency noClicks ["b.mkv"; "c.mkv"]
                     (Interleaved.run (faultAt 15 "exec: unsupported codec")
                        unitLatency noClicks [Drop ["a.mkv"]]))
    = (front ++ [y])%list.
Proof.
  assert (H1 : ["b.mkv"; "c.mkv"] <> []) by discriminate.
  assert (H2 : length (uploadedFiles
                         (Interleaved.run (faultAt 15 "exec: unsupported codec")
                            unitLatency noClicks [Drop ["a.mkv"]])) < 5)
    by (vm_compute; lia).
  split; [split; assumption|]. split; [vm_compute; reflexivity|].
  split; [vm_compute; reflexivity|].
  destruct (phase_follows_last_job (faultAt 15 "exec: unsupported codec")
              unitLatency noClicks [Drop ["a.mkv"]] ["b.mkv"; "c.mkv"]
              (fun _ => eq_refl) H1 H2)
    as (front & y & Hj & _).
  exists front, y. exact Hj.
Defined.

(** ** The engine's file system *)

Lemma last_buildArgs fmt inputName outputName :
  last (buildArgs fmt inputName outputName) "" = outputName.
Proof. unfold buildArgs. destruct (String.eqb fmt "gif"); reflexivity. Qed.

Lemma In_unlink p q l : In p (unlink q l) <-> In p l /\ p <> q.
Proof.
  unfold unlink. rewrite filter_In. split; intros [H1 H2]; split; try assumption.
  - intros ->. rewrite String.eqb_refl in H2. discriminate H2.
  - destruct (String.eqb_spec q p) as [->|_]; [contradiction | reflexivity].
Qed.

Lemma In_cleanedUp p i o before :
  In p (cleanedUp i o before) <-> In p before /\ p <> i /\ p <> o.
Proof.
  unfold cleanedUp. split.
  - intros H. apply In_unlink in H. destruct H as [H Hno].
    apply In_unlink in H. destruct H as [H Hni].
    destruct H as [Ho|H]; [congruence|].
    apply In_unlink in H. destruct H as [H _].
    destruct H as [Hi|H]; [congruence|].
    apply In_unlink in H. destruct H as [H _]. auto.
  - intros (Hin & Hni & Hno).
    apply In_unlink. split; [|assumption].
    apply In_unlink. split; [|assumption]. right.
    apply In_unlink. split; [|assumption]. right.
    apply In_unlink. split; assumption.
Qed.

Section CleanUp.

Variable faults : nat -> option string.
Variable latency : nat -> nat.
Variable s0 : Sys.

Ltac same_fs A :=
  apply spec_bind with (Q1 := fun _ s => fs s = A);
  [ first
      [ apply spec_read; intros ? H; exact H
      | apply spec_engine; intros ? ? H;
        [ exact I | first [ exact H | simpl; rewrite H; reflexivity ] ]
      | apply spec_act; intros ? H; exact H
      | intros ? H; exact H ]
  | intros ? ].

Lemma fs_initializeFFmpeg :
  spec (fun s => s = s0) (initializeFFmpeg faults latency)
       (fun _ s => fs s = fs s0) (fun _ => True).
Proof.
  unfold initializeFFmpeg.
  apply spec_bind with (Q1 := fun _ s => fs s = fs s0);
    [apply spec_read; intros s ->; reflexivity|].
  intros [h|]; [apply spec_ret; auto|].
  same_fs (fs s0). same_fs (fs s0).
  apply spec_try with (E1 := fun _ => True).
  - unfold FFmpeg_load. same_fs (fs s0). same_fs (fs s0). apply spec_ret. auto.
  - intros e. apply spec_bind with (Q1 := fun _ _ => True);
      [apply spec_act; auto|]. intros _. apply spec_throw. auto.
Qed.

Lemma fs_convertVideo_try fmt snap fc :
  spec (fun s => s = s0) (convertVideo_try faults latency fmt snap fc)
       (fun _ s => exists t1 t2,
            fs s = cleanedUp (inputNameAt t1 fc) (outputNameAt t2 fmt) (fs s0))
       (fun _ => True).
Proof.
  unfold convertVideo_try, Date_now, fetchFile, FFmpeg_writeFile, FFmpeg_exec,
    FFmpeg_readFile, FFmpeg_deleteFile.
  apply spec_bind with (Q1 := fun _ s => fs s = fs s0);
    [apply fs_initializeFFmpeg | intros ffmpeg].
  same_fs (fs s0). same_fs (fs s0).
  apply spec_bind with (Q1 := fun _ s => fs s = fs s0);
    [apply spec_read; intros ? H; exact H | intros t1].
  same_fs (fs s0).
  same_fs (inputNameAt t1 fc :: unlink (inputNameAt t1 fc) (fs s0)).
  apply spec_bind
    with (Q1 := fun _ s => fs s = inputNameAt t1 fc
                                  :: unlink (inputNameAt t1 fc) (fs s0));
    [apply spec_read; intros ? H; exact H | intros t2].
  rewrite last_buildArgs.
  same_fs (outputNameAt t2 fmt
           :: unlink (outputNameAt t2 fmt)
                (inputNameAt t1 fc :: unlink (inputNameAt t1 fc) (fs s0))).
  same_fs (outputNameAt t2 fmt
           :: unlink (outputNameAt t2 fmt)
                (inputNameAt t1 fc :: unlink (inputNameAt t1 fc) (fs s0))).
  same_fs (outputNameAt t2 fmt
           :: unlink (outputNameAt t2 fmt)
                (inputNameAt t1 fc :: unlink (inputNameAt t1 fc) (fs s0))).
  same_fs (outputNameAt t2 fmt
           :: unlink (outputNameAt t2 fmt)
                (inputNameAt t1 fc :: unlink (inputNameAt t1 fc) (fs s0))).
  same_fs (unlink (inputNameAt t1 fc)
             (outputNameAt t2 fmt
              :: unlink (outputNameAt t2 fmt)
                   (inputNameAt t1 fc :: unlink (inputNameAt t1 fc) (fs s0)))).
  same_fs (cleanedUp (inputNameAt t1 fc) (outputNameAt t2 fmt) (fs s0)).
  destruct (forallb _ snap).
  - apply spec_act. intros s H. exists t1, t2. exact H.
  - apply spec_ret. intros s H. exists t1, t2. exact H.
Qed.

End CleanUp.

(** X9.  A conversion whose [try] block runs to its end leaves no entry of
    its own in the engine's file system: the entries after it are the
    entries before it without the input name and the output name it used. *)
Theorem successful_conversion_removes_its_entries
    faults latency fmt snap fc s :
  fst (convertVideo_try faults latency fmt snap fc s) = Return tt ->
  exists t1 t2,
    forall p,
      In p (fs (snd (convertVideo faults latency fmt snap fc s))) <->
      In p (fs s) /\ p <> inputNameAt t1 fc /\ p <> outputNameAt t2 fmt.
Proof.
  intros Hret.
  pose proof (fs_convertVideo_try faults latency s fmt snap fc s eq_refl) as H.
  unfold convertVideo, try_catch.
  destruct (convertVideo_try faults latency fmt snap fc s) as [[[]|e] s1];
    [|discriminate Hret].
  destruct H as (t1 & t2 & Hfs). exists t1, t2. intros p.
  simpl. rewrite Hfs. apply In_cleanedUp.
Qed.

Lemma successful_conversion_removes_its_entries_witness :
  fst (convertVideo_try noFaults unitLatency "mp4" []
         (pendingJob (Build_File 1 "b.mkv"))
         (run (faultAt 3 "exec: unsupported codec") unitLatency [Drop ["a.mkv"]]))
  = Return tt /\
  fs (run (faultAt 3 "exec: unsupported codec") unitLatency [Drop ["a.mkv"]])
  = ["input_1.mkv"] /\
  exists t1 t2,
    forall p,
      In p (fs (snd (convertVideo noFaults unitLatency "mp4" []
                       (pendingJob (Build_File 1 "b.mkv"))
                       (run (faultAt 3 "exec: unsupported codec") unitLatency
                          [Drop ["a.mkv"]])))) <->
      In p (fs (run (faultAt 3 "exec: unsupported codec") unitLatency
                  [Drop ["a.mkv"]])) /\
      p <> inputNameAt t1 (pendingJob (Build_File 1 "b.mkv")) /\
      p <> outputNameAt t2 "mp4".
Proof.
  assert (H : fst (convertVideo_try noFaults unitLatency "mp4" []
                     (pendingJob (Build_File 1 "b.mkv"))
                     (run (faultAt 3 "exec: unsupported codec") unitLatency
                        [Drop ["a.mkv"]]))
              = Return tt) by (vm_compute; reflexivity).
  split; [exact H|]. split; [vm_compute; reflexivity|].
  exact (successful_conversion_removes_its_entries noFaults unitLatency "mp4" []
           (pendingJob (Build_File 1 "b.mkv"))
           (run (faultAt 3 "exec: unsupported codec") unitLatency [Drop ["a.mkv"]])
           H).
Defined.

(** ** A failed engine load *)

(** X10.  When no engine instance is held and [load] rejects, the job is
    marked failed with the fixed text without ever being marked converting,
    the phase stays loading, only [load] was called, the raw error and the
    text of the rethrown error go to the console, and [ffmpegRef] stays
    empty, so the next conversion constructs a new instance and loads
    again. *)
Theorem failed_load_fails_the_job faults latency fmt snap fc s e :
  ffmpegRef s = None ->
  faults (length (engineCalls s)) = Some e ->
  let s' := snd (convertVideo faults latency fmt snap fc s) in
  uploadedFiles s' = mapJob fc markError (uploadedFiles s) /\
  phaseOf s' = Phase.loading /\
  ffmpegRef s' = None /\
  instances s' = S (instances s) /\
  engineCalls s' = Load :: engineCalls s /\
  console s' = "Failed to initialize video converter" :: e :: console s.
Proof.
  intros Href Hfault.
  assert (Hinit : initializeFFmpeg faults latency s
                  = (Throw "Failed to initialize video converter",
                     set_console (e :: console s)
                       (issue Load (latency (length (engineCalls s)))
                          (setConversionState
                             (ConversionProgress.Build_t Phase.loading
                                "Loading FFmpeg..." None)
                             (set_instances (S (instances s)) s))))).
  { unfold initializeFFmpeg, bind, read, try_catch, new_FFmpeg, act, throw,
      console_error, FFmpeg_load, engine.
    rewrite Href. simpl. rewrite Hfault. reflexivity. }
  assert (Hconv : snd (convertVideo faults latency fmt snap fc s)
                  = setUploadedFiles (mapJob fc markError)
                      (set_console
                         ("Failed to initialize video converter"
                          :: e :: console s)
                         (issue Load (latency (length (engineCalls s)))
                            (setConversionState
                               (ConversionProgress.Build_t Phase.loading
                                  "Loading FFmpeg..." None)
                               (set_instances (S (instances s)) s))))).
  { unfold convertVideo, try_catch, convertVideo_try. unfold bind at 1.
    rewrite Hinit. reflexivity. }
  intros s'. subst s'. rewrite Hconv. simpl. rewrite Href. repeat split.
Qed.

Lemma failed_load_fails_the_job_witness :
  (ffmpegRef (enqueue ["a.mkv"] initial) = None /\
   faultAt 0 "wasm: fetch failed" (length (engineCalls (enqueue ["a.mkv"] initial)))
   = Some "wasm: fetch failed") /\
  statusTrace (run (faultAt 0 "wasm: fetch failed") unitLatency [Drop ["a.mkv"]])
  = [ ([Status.pending], Phase.idle); ([Status.pending], Phase.loading);
      ([Status.error], Phase.loading) ] /\
  phaseOf (snd (convertVideo (faultAt 0 "wasm: fetch failed") unitLatency "mp4" []
                  (pendingJob (Build_File 0 "a.mkv"))
                  (enqueue ["a.mkv"] initial))) = Phase.loading.
Proof.
  assert (H1 : ffmpegRef (enqueue ["a.mkv"] initial) = None) by reflexivity.
  assert (H2 : faultAt 0 "wasm: fetch failed"
                 (length (engineCalls (enqueue ["a.mkv"] initial)))
               = Some "wasm: fetch failed") by reflexivity.
  split; [split; assumption|]. split; [vm_compute; reflexivity|].
  exact (proj1 (proj2 (failed_load_fails_the_job
                         (faultAt 0 "wasm: fetch failed") unitLatency "mp4" []
                         (pendingJob (Build_File 0 "a.mkv"))
                         (enqueue ["a.mkv"] initial) "wasm: fetch failed" H1 H2))).
Defined.

(** ** Drops that enqueue nothing *)

Lemma slice0_nil {A : Type} (e : Z) : JS.slice0 (@nil A) e = [].
Proof. unfold JS.slice0. destruct (e <? 0)%Z; apply firstn_nil. Qed.

(** X11.  A drop with no accepted file, and any drop on a list of 5 jobs,
    enqueues nothing: the job list, the phase and message, the engine's
    file system and the list of engine calls are left as they were. *)
Theorem empty_or_full_drop_does_nothing faults latency names s :
  names = [] \/ length (uploadedFiles s) = 5 ->
  let s' := dropFiles faults latency names s in
  uploadedFiles s' = uploadedFiles s /\
  conversionState s' = conversionState s /\
  engineCalls s' = engineCalls s /\
  fs s' = fs s /\
  objectUrls s' = objectUrls s.
Proof.
  intros H s'.
  assert (E : JS.slice0 (browserFiles (nextFile s) names)
                (5 - Z.of_nat (length (uploadedFiles s)))%Z = []).
  { destruct H as [->|H5]; [apply slice0_nil|].
    rewrite slice0_available by lia. rewrite H5. reflexivity. }
  unfold s', dropFiles, onDrop. rewrite E. simpl.
  rewrite app_nil_r. repeat split.
Qed.

Lemma empty_or_full_drop_does_nothing_witness :
  (["f.mkv"; "g.mkv"] = [] \/
   length (uploadedFiles
             (run noFaults unitLatency
                [Drop ["a.mkv"; "b.mkv"; "c.mkv"; "d.mkv"; "e.mkv"]])) = 5) /\
  engineCalls (dropFiles noFaults unitLatency ["f.mkv"; "g.mkv"]
                 (run noFaults unitLatency
                    [Drop ["a.mkv"; "b.mkv"; "c.mkv"; "d.mkv"; "e.mkv"]]))
  = engineCalls (run noFaults unitLatency
                   [Drop ["a.mkv"; "b.mkv"; "c.mkv"; "d.mkv"; "e.mkv"]]).
Proof.
  assert (H : ["f.mkv"; "g.mkv"] = [] \/
              length (uploadedFiles
                        (run noFaults unitLatency
                           [Drop ["a.mkv"; "b.mkv"; "c.mkv"; "d.mkv"; "e.mkv"]]))
              = 5) by (right; vm_compute; reflexivity).
  split; [exact H|].
  exact (proj1 (proj2 (proj2
           (empty_or_full_drop_does_nothing noFaults unitLatency
              ["f.mkv"; "g.mkv"]
              (run noFaults unitLatency
                 [Drop ["a.mkv"; "b.mkv"; "c.mkv"; "d.mkv"; "e.mkv"]]) H)))).
Defined.

(** ** Downloads *)

Lemma heldUrls_In fc url l :
  In fc l -> FileConversion.downloadUrl fc = Some url ->
  JS.truthy (Some url) = true -> In url (heldUrls l).
Proof.
  intros Hin Hurl Ht. unfold heldUrls. apply in_flat_map.
  exists fc. split; [assumption|]. rewrite Hurl, Ht. left. reflexivity.
Qed.

(** X12.  A click on a Download button never hands out a revoked URL: in
    every state the user can reach it either changes nothing, or starts one
    download whose address is an object URL a job of the list holds and
    [URL.revokeObjectURL] has never been called on. *)
Theorem download_uses_a_live_url faults latency acts i :
  let s := run faults latency acts in
  let s' := step faults latency s (ClickDownload i) in
  s' = s \/
  exists url fileName,
    downloads s' = (url, fileName) :: downloads s /\
    In url (heldUrls (uploadedFiles s)) /\
    count_occ string_dec (revoked s) url = 0 /\
    uploadedFiles s' = uploadedFiles s /\
    revoked s' = revoked s.
Proof.
  intros s s'. unfold s'. cbn [step].
  destruct (nth_error (uploadedFiles s) i) as [fc|] eqn:Hfc; [|left; reflexivity].
  destruct (Status.eqb _ _); [|left; reflexivity].
  unfold downloadVideo.
  destruct (FileConversion.downloadUrl fc) as [url|] eqn:Hurl; [|left; reflexivity].
  destruct (JS.truthy (Some url)) eqn:Ht; [|left; reflexivity].
  right. eexists. eexists. split; [reflexivity|].
  assert (Hheld : In url (heldUrls (uploadedFiles s)))
    by (apply (heldUrls_In fc); [apply (nth_error_In _ _ Hfc) | assumption..]).
  split; [assumption|]. split; [|split; reflexivity].
  destruct (run_Quiet faults latency acts) as [Hinv _]. fold s in Hinv.
  pose proof (i_urls _ Hinv) as Hnd.
  apply count_occ_not_In. intros Hrev.
  rewrite (NoDup_count_occ string_dec) in Hnd. specialize (Hnd url).
  rewrite count_occ_app in Hnd.
  assert (count_occ string_dec (heldUrls (uploadedFiles s)) url > 0)
    by (apply count_occ_In; assumption).
  assert (count_occ string_dec (revoked s) url > 0)
    by (apply count_occ_In; assumption).
  lia.
Qed.

(** ** The life cycle of a job *)

Lemma advances_refl l : advances l l.
Proof. intros i x y Hx Hy. rewrite Hx in Hy. injection Hy as <-. auto. Qed.

Lemma advances_app l more : advances l (l ++ more)%list.
Proof.
  intros i x y Hx Hy.
  rewrite nth_error_app1 in Hy by (apply nth_error_Some; congruence).
  rewrite Hx in Hy. injection Hy as <-. auto.
Qed.

Lemma advances_empty l : advances l [].
Proof. intros i x y _ Hy. destruct i; discriminate Hy. Qed.

Lemma advances_row done queue y y' :
  FileConversion.file y' = FileConversion.file y ->
  rank (FileConversion.status y) <= rank (FileConversion.status y') ->
  advances (done ++ y :: queue)%list (done ++ y' :: queue)%list.
Proof.
  intros Hf Hr i a b Ha Hb.
  destruct (Nat.lt_ge_cases i (length done)) as [Hi|Hi].
  - rewrite nth_error_app1 in Ha, Hb by assumption.
    rewrite Ha in Hb. injection Hb as <-. auto.
  - rewrite nth_error_app2 in Ha, Hb by assumption.
    destruct (i - length done) as [|k]; simpl in Ha, Hb.
    + injection Ha as <-. injection Hb as <-. auto.
    + rewrite Ha in Hb. injection Hb as <-. auto.
Qed.

Lemma Trail_setUploadedFiles upd s :
  advances (uploadedFiles s) (upd (uploadedFiles s)) ->
  Trail s -> Trail (setUploadedFiles upd s).
Proof.
  intros Hadv [Hhd Hcl]. split; [reflexivity|]. simpl.
  destruct (history s) as [|h t]; [constructor|].
  simpl in Hhd, Hcl |- *. rewrite Hhd in Hadv. rewrite Hhd.
  constructor; assumption.
Qed.

Lemma Trail_setConversionState c s : Trail s -> Trail (setConversionState c s).
Proof.
  intros [Hhd Hcl]. split; [reflexivity|]. simpl.
  destruct (history s) as [|h t]; [constructor|].
  simpl in Hhd, Hcl |- *. rewrite Hhd. constructor; [apply advances_refl | assumption].
Qed.

Lemma mapJob_row f upd done y queue :
  FileConversion.file y = f ->
  NoDup (map refOf (done ++ y :: queue)%list) ->
  mapJob (pendingJob f) upd (done ++ y :: queue)%list
  = (done ++ upd y :: queue)%list.
Proof.
  intros Hf Hnd. rewrite <- (mapJob_at upd done y queue Hnd).
  unfold mapJob. apply map_ext. intros a. simpl. rewrite Hf. reflexivity.
Qed.

Section LifeCycle.

Variable faults : nat -> option string.
Variable latency : nat -> nat.
Variable done queue : list FileConversion.t.
Variable f : File.

Lemma rowAt_weaken k k' s :
  k <= k' -> rowAt done queue f k s -> rowAt done queue f k' s.
Proof.
  intros Hk (Ht & Hnd & y & Hj & Hf & Hr).
  split; [assumption|]. split; [assumption|].
  exists y. split; [assumption|]. split; [assumption | lia].
Qed.

Lemma rowAt_setConversionState k c s :
  rowAt done queue f k s -> rowAt done queue f k (setConversionState c s).
Proof.
  intros (Ht & Hnd & Hy). split; [apply Trail_setConversionState; assumption|].
  split; assumption.
Qed.

Lemma rowAt_mark upd k k' s :
  keepsFile upd ->
  (forall y, rank (FileConversion.status y) <= k ->
             rank (FileConversion.status y) <= rank (FileConversion.status (upd y))
             /\ rank (FileConversion.status (upd y)) <= k') ->
  rowAt done queue f k s ->
  rowAt done queue f k' (setUploadedFiles (mapJob (pendingJob f) upd) s).
Proof.
  intros Hk Hup (Ht & Hnd & y & Hj & Hf & Hr).
  assert (Hnew : mapJob (pendingJob f) upd (uploadedFiles s)
                 = (done ++ upd y :: queue)%list).
  { rewrite Hj. apply mapJob_row; [assumption|]. rewrite <- Hj. assumption. }
  destruct (Hup y Hr) as [Hle Hk'].
  split; [|split].
  - apply Trail_setUploadedFiles; [|assumption].
    rewrite Hnew, Hj. apply advances_row; [apply Hk | assumption].
  - simpl. rewrite mapJob_refs; assumption.
  - exists (upd y). simpl. split; [assumption|].
    split; [rewrite Hk; assumption | assumption].
Qed.

Ltac keep_row k :=
  apply spec_bind with (Q1 := fun _ => rowAt done queue f k);
  [ first
      [ apply spec_read; intros ? H; exact H
      | apply spec_engine; intros ? ? H;
        [ apply (rowAt_weaken k 3); [lia | exact H] | exact H ]
      | apply spec_act; intros ? H;
        first [ exact H | apply rowAt_setConversionState; exact H ]
      | intros ? H; exact H ]
  | intros ? ].

Lemma rowAt_initializeFFmpeg :
  spec (rowAt done queue f 1) (initializeFFmpeg faults latency)
       (fun _ => rowAt done queue f 1) (rowAt done queue f 3).
Proof.
  unfold initializeFFmpeg. keep_row 1.
  destruct a as [h|]; [apply spec_ret; auto|].
  keep_row 1. keep_row 1.
  apply spec_try with (E1 := rowAt done queue f 3).
  - unfold FFmpeg_load. keep_row 1. keep_row 1. apply spec_ret. auto.
  - intros e. apply spec_bind with (Q1 := fun _ => rowAt done queue f 3);
      [apply spec_act; intros ? H; exact H|].
    intros _. apply spec_throw. auto.
Qed.

Lemma Trail_convertVideo fmt snap :
  spec (rowAt done queue f 0) (convertVideo faults latency fmt snap (pendingJob f))
       (fun _ => Trail) Trail.
Proof.
  unfold convertVideo.
  apply spec_try with (E1 := rowAt done queue f 3).
  - unfold convertVideo_try, Date_now, fetchFile, FFmpeg_writeFile, FFmpeg_exec,
      FFmpeg_readFile, FFmpeg_deleteFile.
    apply spec_bind with (Q1 := fun _ => rowAt done queue f 1).
    { intros s H. apply (rowAt_initializeFFmpeg s).
      apply (rowAt_weaken 0 1); [lia | exact H]. }
    intros ffmpeg.
    apply spec_bind with (Q1 := fun _ => rowAt done queue f 1).
    { apply spec_act. intros s H.
      apply (rowAt_mark markConverting 1 1); [intro; reflexivity | | exact H].
      intros y Hy. simpl. lia. }
    intros _.
    do 7 keep_row 1.
    apply spec_bind with (Q1 := fun _ => rowAt done queue f 1);
      [intros s H; exact H | intros outputUrl].
    apply spec_bind with (Q1 := fun _ => rowAt done queue f 2).
    { apply spec_act. intros s H.
      apply (rowAt_mark (markCompleted outputUrl) 1 2);
        [intro; reflexivity | | exact H].
      intros y Hy. simpl. lia. }
    intros _.
    keep_row 2. keep_row 2.
    destruct (forallb _ snap).
    + apply spec_act. intros s H.
      apply (rowAt_setConversionState 2 _ s H).
    + apply spec_ret. intros s H. apply H.
  - intros e. unfold console_error.
    apply spec_bind with (Q1 := fun _ => rowAt done queue f 3);
      [apply spec_act; intros ? H; exact H|].
    intros _. apply spec_act. intros s H.
    apply (rowAt_mark markError 3 3 s); [intro; reflexivity | | exact H].
    intros y Hy. simpl. lia.
Qed.

End LifeCycle.

Lemma Trail_after_convertVideo faults latency fmt snap done f rest s :
  uploadedFiles s = (done ++ pendingJob f :: map pendingJob rest)%list ->
  Inv s -> Trail s ->
  Trail (snd (convertVideo faults latency fmt snap (pendingJob f) s)).
Proof.
  intros Hjobs Hinv Ht.
  assert (Hrow : rowAt done (map pendingJob rest) f 0 s).
  { split; [assumption|]. split; [apply (i_refs _ Hinv)|].
    exists (pendingJob f). split; [assumption|]. split; [reflexivity|].
    simpl. lia. }
  generalize (Trail_convertVideo faults latency done (map pendingJob rest) f
                fmt snap s Hrow).
  destruct (convertVideo _ _ _ _ _ _) as [[a|e] s1]; auto.
Qed.

(** X13.  The status of a job never goes back.  Through all the job lists
    the component shows in a session, from one list to the next every row
    keeps its file and its status stays or moves forward in the order
    pending, converting, completed, failed (a reset empties the list); and
    the current job list is the last one shown. *)
Theorem job_status_never_goes_back faults latency acts :
  let s := run faults latency acts in
  Climbing (map fst (history s)) /\
  uploadedFiles s = hd [] (map fst (history s)).
Proof.
  intros s. assert (Ht : Trail s); [|destruct Ht; split; assumption].
  apply run_invariant; [split; [reflexivity | constructor]|].
  intros s1 a [Hinv Hterm] Ht. destruct a as [names|i|i|]; cbn [step].
  - destruct (_ && _); [|assumption].
    rewrite (dropFiles_unfold _ _ _ _ (i_cap _ Hinv)).
    apply (batch_invariant faults latency (outputFormat s1) (uploadedFiles s1)
             Trail) with (done := uploadedFiles s1).
    + intros done f rest s2. apply Trail_after_convertVideo.
    + reflexivity.
    + apply enqueue_Inv. assumption.
    + unfold enqueue. apply Trail_setUploadedFiles; [apply advances_app | exact Ht].
  - destruct (nth_error OUTPUT_FORMATS i); [|assumption].
    destruct (busy s1); [assumption | exact Ht].
  - destruct (nth_error (uploadedFiles s1) i) as [fc|]; [|assumption].
    destruct (Status.eqb _ _); [|assumption].
    destruct (downloadVideo_frame (outputFormat s1) fc s1) as [->|[d ->]];
      [assumption | exact Ht].
  - destruct (uploadedFiles s1) eqn:E; [assumption|].
    unfold resetConverter. rewrite revokeAll_spec.
    apply Trail_setConversionState. apply Trail_setUploadedFiles; [|exact Ht].
    apply advances_empty.
Qed.

(** ** Completed jobs *)

Lemma convertVideo_completed faults latency fmt snap fc s :
  exists g,
    uploadedFiles (snd (convertVideo faults latency fmt snap fc s))
    = mapJob fc g (uploadedFiles s) /\
    forall x, FileConversion.status (g x) = Status.completed ->
              FileConversion.downloadUrl (g x) = Some (newUrl s) /\
              FileConversion.error (g x) = FileConversion.error x.
Proof.
  pose proof (spec_convertVideo_try faults latency fmt fc s snap s eq_refl) as H.
  unfold convertVideo, try_catch.
  destruct (convertVideo_try faults latency fmt snap fc s) as [[a|e] s1]; simpl.
  - destruct (pg_jobs _ _ _ _ _ H) as (g & Hg & _ & Herr & Hall & _).
    exists g. split; [assumption|]. intros x _. split; [apply Hall | apply Herr].
  - destruct H as [d Hp].
    destruct (pg_jobs _ _ _ _ _ Hp) as (g & Hg & Hk & _).
    exists (fun x => markError (g x)). split.
    + rewrite Hg. apply mapJob_mapJob. assumption.
    + intros x Habs. discriminate Habs.
Qed.

Lemma downloadable_after_convertVideo faults latency fmt snap done f rest s :
  uploadedFiles s = (done ++ pendingJob f :: map pendingJob rest)%list ->
  Inv s -> Forall downloadable (uploadedFiles s) ->
  Forall downloadable
         (uploadedFiles (snd (convertVideo faults latency fmt snap (pendingJob f) s))).
Proof.
  intros Hjobs Hinv Hall.
  destruct (convertVideo_completed faults latency fmt snap (pendingJob f) s)
    as (g & Hg & Hdone).
  assert (Hnd : NoDup (map refOf (done ++ pendingJob f :: map pendingJob rest)%list))
    by (rewrite <- Hjobs; apply (i_refs _ Hinv)).
  rewrite Hg, Hjobs, (mapJob_at _ _ _ _ Hnd).
  rewrite Hjobs in Hall. apply Forall_app in Hall. destruct Hall as [Hd Hq].
  apply Forall_app. split; [assumption|].
  inversion Hq as [|? ? _ Hrest]; subst. constructor; [|assumption].
  intros Hst. destruct (Hdone _ Hst) as [Hurl Herr].
  rewrite Hurl, Herr. split; [rewrite newUrl_urlOf; apply urlOf_truthy | reflexivity].
Qed.

(** X14.  The Download button of a completed job always works: in every
    state the user can reach, a job with the status completed holds a
    non-empty object URL and no error text, and a click on its Download
    button starts a download of that URL. *)
Theorem completed_job_can_be_downloaded faults latency acts i fc :
  let s := run faults latency acts in
  nth_error (uploadedFiles s) i = Some fc ->
  FileConversion.status fc = Status.completed ->
  exists url,
    FileConversion.downloadUrl fc = Some url /\
    FileConversion.error fc = None /\
    downloads (step faults latency s (ClickDownload i))
    = (url, JS.replace_ext (name (FileConversion.file fc)) ("." ++ outputFormat s))
      :: downloads s.
Proof.
  intros s Hfc Hst.
  assert (Hall : Forall downloadable (uploadedFiles s)).
  { apply run_invariant; [constructor|].
    intros s1 a [Hinv Hterm] Hd. destruct a as [names|j|j|]; cbn [step].
    - destruct (_ && _); [|assumption].
      rewrite (dropFiles_unfold _ _ _ _ (i_cap _ Hinv)).
      apply (batch_invariant faults latency (outputFormat s1) (uploadedFiles s1)
               (fun st => Forall downloadable (uploadedFiles st)))
        with (done := uploadedFiles s1).
      + intros done f rest s2. apply downloadable_after_convertVideo.
      + reflexivity.
      + apply enqueue_Inv. assumption.
      + unfold enqueue. simpl. apply Forall_app. split; [assumption|].
        apply Forall_map. apply Forall_forall. intros f _ Habs. discriminate Habs.
    - destruct (nth_error OUTPUT_FORMATS j); [|assumption].
      destruct (busy s1); [assumption | exact Hd].
    - destruct (nth_error (uploadedFiles s1) j) as [fc1|]; [|assumption].
      destruct (Status.eqb _ _); [|assumption].
      destruct (downloadVideo_frame (outputFormat s1) fc1 s1) as [->|[d ->]];
        [assumption | exact Hd].
    - destruct (uploadedFiles s1) eqn:E; [rewrite E; constructor|].
      unfold resetConverter. rewrite revokeAll_spec. simpl. constructor. }
  rewrite Forall_forall in Hall.
  destruct (Hall fc (nth_error_In _ _ Hfc) Hst) as [Ht Herr].
  destruct (FileConversion.downloadUrl fc) as [url|] eqn:Hurl; [|discriminate Ht].
  exists url. split; [reflexivity|]. split; [assumption|].
  cbn [step]. rewrite Hfc, Hst. cbn [Status.eqb].
  unfold downloadVideo. rewrite Hurl, Ht. reflexivity.
Qed.

Lemma completed_job_can_be_downloaded_witness :
  (nth_error (uploadedFiles
                (run (faultAt 3 "exec: unsupported codec") unitLatency
                   [Drop ["a.mkv"; "b.clip.mov"]; SelectFormat 2])) 1
   = Some (FileConversion.Build_t (Build_File 1 "b.clip.mov") Status.completed
             100 (Some "blob:0") None) /\
   FileConversion.status
     (FileConversion.Build_t (Build_File 1 "b.clip.mov") Status.completed
        100 (Some "blob:0") None) = Status.completed) /\
  exists url,
    FileConversion.downloadUrl
      (FileConversion.Build_t (Build_File 1 "b.clip.mov") Status.completed
         100 (Some "blob:0") None) = Some url /\
    FileConversion.error
      (FileConversion.Build_t (Build_File 1 "b.clip.mov") Status.completed
         100 (Some "blob:0") None) = None /\
    downloads (step (faultAt 3 "exec: unsupported codec") unitLatency
                 (run (faultAt 3 "exec: unsupported codec") unitLatency
                    [Drop ["a.mkv"; "b.clip.mov"]; SelectFormat 2])
                 (ClickDownload 1))
    = (url, JS.replace_ext
              (name (FileConversion.file
                       (FileConversion.Build_t (Build_File 1 "b.clip.mov")
                          Status.completed 100 (Some "blob:0") None)))
              ("." ++ outputFormat
                        (run (faultAt 3 "exec: unsupported codec") unitLatency
                           [Drop ["a.mkv"; "b.clip.mov"]; SelectFormat 2])))
      :: downloads (run (faultAt 3 "exec: unsupported codec") unitLatency
                      [Drop ["a.mkv"; "b.clip.mov"]; SelectFormat 2]).
Proof.
  assert (H1 : nth_error (uploadedFiles
                            (run (faultAt 3 "exec: unsupported codec") unitLatency
                               [Drop ["a.mkv"; "b.clip.mov"]; SelectFormat 2])) 1
               = Some (FileConversion.Build_t (Build_File 1 "b.clip.mov")
                         Status.completed 100 (Some "blob:0") None))
    by (vm_compute; reflexivity).
  split; [split; [exact H1 | reflexivity]|].
  exact (completed_job_can_be_downloaded
           (faultAt 3 "exec: unsupported codec") unitLatency
           [Drop ["a.mkv"; "b.clip.mov"]; SelectFormat 2] 1 _ H1 eq_refl).
Defined.

(** ** The format of a batch *)

(** X15.  Every job of a batch is converted to the format that was
    selected when its files were dropped: each command the drop passes to
    the engine is the command of that format for one of the enqueued files,
    and the entry it asks the engine to write ends in that format. *)
Theorem batch_uses_the_format_of_the_drop faults latency acts names :
  let s := run faults latency acts in
  let s' := dropFiles faults latency names s in
  outputFormat s' = outputFormat s /\
  Forall (fun c =>
            match c with
            | Exec args =>
                exists fc t1 t2,
                  In (FileConversion.file fc) (enqueued names s) /\
                  args = buildArgs (outputFormat s) (inputNameAt t1 fc)
                           (outputNameAt t2 (outputFormat s)) /\
                  last args ""
                  = "output_" ++ JS.toString t2 ++ "." ++ outputFormat s
            | _ => True
            end) (callsSince s s').
Proof.
  intros s s'.
  pose proof (dropFiles_spec faults latency names s
                (run_Quiet faults latency acts)) as Hpost.
  split; [apply (dp_format _ _ _ Hpost)|].
  pose proof (Extends_callsSince _ _ _ (dp_calls _ _ _ Hpost)) as Hc.
  apply Forall_impl with (2 := Hc).
  intros c Hcall. destruct c; try exact I.
  destruct Hcall as (fc & t1 & t2 & Hin & ->).
  exists fc, t1, t2. split; [assumption|]. split; [reflexivity|].
  apply last_buildArgs.
Qed.
